(** * Typography agent: analysis and correction engine

    A shallow embedding of the typography analysis-and-correction core:
    the client-side [TypographyAnalyzer] (font pairing, readability and
    hierarchy checks) and the host-script helpers [shouldApplyRule],
    [applyFormattingRule], [applyHierarchyFix], [applyTypographyFix],
    [batchFormatText] and [autoFitText].

    Modelling conventions.
    - A JavaScript number is a double; a finite one is carried as the
      rational it denotes ([Q]), and the type [number] adds [NaN] and
      the two infinities at the places where the code can produce them
      (a product with [undefined], a division).  Arithmetic whose
      rounding can change a decision is carried out in double
      precision with [Js.double]: the quotients that [analyzeHierarchy]
      compares and the repeated products of [autoFitText]; there a
      rational operand stands for the double nearest to it.  A product
      that is only stored ([size * lineHeight],
      [baseSize * ratio^k]) is kept as the exact value of its formula.
    - A property that may be absent from a JavaScript object is an
      [option]; [None] stands for [undefined].  Truthiness tests
      ([if (x)], [x || d], [x ? a : b]) are written out: [0], the empty
      string and [undefined] are falsy.
    - Strings are ASCII strings.
    - Host objects mutated in place are passed and returned explicitly;
      an array of host objects addressed by index is a list updated with
      [alter].  The selection of a document holds the document's own
      text frames, so it is a list of references into [doc.textFrames]. *)

From Stdlib Require Import QArith Qabs Qpower Lqa ZArith Lia.
From Stdlib Require Import List String Ascii Bool Sorting Permutation.
From Stdlib Require Import DecimalString.
From Stdlib Require Import Qround NArith.
From Stdlib Require HexadecimalString.
From stdpp Require Import base list sorting.

Open Scope string_scope.
Open Scope list_scope.
Open Scope Q_scope.

(** ** JavaScript values *)

Module Js.

(** Numbers that may leave the rationals. *)
Inductive number : Type :=
| NaN
| Infinity (negative : bool)
| Fin (q : Q).

(** [ToNumber] on a possibly absent numeric property. *)
Definition toNumber (o : option Q) : number :=
  match o with
  | Some q => Fin q
  | None => NaN
  end.

Definition Qltb (x y : Q) : bool := negb (Qle_bool y x).
Definition Qgtb (x y : Q) : bool := Qltb y x.
Definition Qis_zero (x : Q) : bool := Qeq_bool x 0.

(** [x * y]. *)
Definition mul (x y : number) : number :=
  match x, y with
  | NaN, _ | _, NaN => NaN
  | Fin a, Fin b => Fin (a * b)
  | Infinity s, Infinity t => Infinity (xorb s t)
  | Infinity s, Fin b | Fin b, Infinity s =>
      if Qis_zero b then NaN else Infinity (xorb s (Qltb b 0))
  end.

(** *** Double precision

    A finite double is a rational [m * 2^k] with [|m| <= 2^53] and
    [-1074 <= k]; between [2^e] and [2^(e+1)] the doubles are the
    multiples of [2^(e-52)], below [2^-1022] those of [2^-1074]. *)

(** The exponent [e] with [2^e <= q < 2^(e+1)], for [0 < q]. *)
Definition exponentOf (q : Q) : Z :=
  let e := (Z.log2 (Qnum q) - Z.log2 (Zpos (Qden q)))%Z in
  if Qle_bool (2 ^ e) q then e else (e - 1)%Z.

(** The integer nearest to [q], the even one of two equally near. *)
Definition roundHalfEven (q : Q) : Z :=
  let f := Qfloor q in
  match Qcompare (q - inject_Z f)%Q (1 # 2)%Q with
  | Lt => f
  | Gt => (f + 1)%Z
  | Eq => if Z.even f then f else (f + 1)%Z
  end.

(** The double nearest to [q]: round to nearest, ties to even, with
    gradual underflow.  This is how a decimal literal is read and how
    the exact result of an operation on doubles is rounded.  The
    exponent is not bounded above here: see [finite]. *)
Definition double (q : Q) : Q :=
  let q := Qred q in
  if Qis_zero q then 0
  else
    let a := Qabs q in
    let k := Z.max (exponentOf a - 52) (-1074) in
    let r := Qred (inject_Z (roundHalfEven (a / 2 ^ k)) * 2 ^ k) in
    if Qltb q 0 then - r else r.

Arguments double : simpl never.

(** A rounded result as a number: a magnitude that reaches [2^1024]
    has overflowed to an infinity. *)
Definition finite (r : Q) : number :=
  if Qle_bool (2 ^ 1024) (Qabs r) then Infinity (Qltb r 0) else Fin r.

(** [a / b]: the quotient of two doubles, rounded. *)
Definition div (a b : Q) : number :=
  let a := double a in
  let b := double b in
  if Qis_zero b then
    if Qis_zero a then NaN else Infinity (Qltb a 0)
  else finite (double (a / b)).

(** [x < c] and [x > c] against a finite constant. *)
Definition lt (x : number) (c : Q) : bool :=
  match x with
  | NaN => false
  | Infinity s => s
  | Fin q => Qltb q c
  end.

Definition gt (x : number) (c : Q) : bool :=
  match x with
  | NaN => false
  | Infinity s => negb s
  | Fin q => Qgtb q c
  end.

(** Truthiness of optional properties. *)
Definition truthyNum (o : option Q) : option Q :=
  match o with
  | Some q => if Qis_zero q then None else Some q
  | None => None
  end.

Definition truthyStr (o : option string) : option string :=
  match o with
  | Some EmptyString => None
  | Some s => Some s
  | None => None
  end.

(** [o || d] for a numeric property. *)
Definition orNum (o : option Q) (d : Q) : Q :=
  match truthyNum o with
  | Some q => q
  | None => d
  end.

(** [o || d] for a numeric property that arrives as a double. *)
Definition orDouble (o : option Q) (d : Q) : Q :=
  orNum (option_map double o) (double d).

(** A template string: the concatenation of its parts. *)
Definition template (parts : list string) : string :=
  String.concat EmptyString parts.

(** [Math.pow] with a natural exponent. *)
Definition pow (r : Q) (n : nat) : Q := r ^ Z.of_nat n.

(** [Array.prototype.sort] with a comparator, as a stable insertion
    sort: [x] moves behind [y] exactly when [cmp x y > 0]. *)
Fixpoint sortInsert {A} (cmp : A -> A -> Q) (x : A) (l : list A)
  : list A :=
  match l with
  | [] => [x]
  | y :: t => if Qgtb (cmp x y) 0 then y :: sortInsert cmp x t
              else x :: l
  end.

Fixpoint sort {A} (cmp : A -> A -> Q) (l : list A) : list A :=
  match l with
  | [] => []
  | x :: t => sortInsert cmp x (sort cmp t)
  end.

(** The order of a list sorted with [(a, b) => key(b) - key(a)]. *)
Definition descending {A} (key : A -> Q) (a b : A) : Prop :=
  key b <= key a.

End Js.

(** ** Host document model *)

Module Illustrator.

Inductive AutoKernType := KernAuto | KernOptical.
Inductive Justification := JLeft | JCenter | JRight | JFullJustify.

Record RGBColor := { red : Js.number; green : Js.number; blue : Js.number }.

(** A text frame with the attributes of its text range that the scripts
    read or write: [textRange.characterAttributes.{textFont, size,
    tracking, autoKernType, fillColor}],
    [textRange.paragraphAttributes.{leading, justification}] and
    [textRange.contents]. *)
Record TextFrame := {
  textFont : string;
  size : Q;
  tracking : Q;
  autoKernType : AutoKernType;
  fillColor : RGBColor;
  leading : Js.number;
  justification : Justification;
  contents : string
}.

Definition set_textFont (v : string) (t : TextFrame) : TextFrame :=
  {| textFont := v; size := size t; tracking := tracking t;
     autoKernType := autoKernType t; fillColor := fillColor t;
     leading := leading t; justification := justification t;
     contents := contents t |}.

Definition set_size (v : Q) (t : TextFrame) : TextFrame :=
  {| textFont := textFont t; size := v; tracking := tracking t;
     autoKernType := autoKernType t; fillColor := fillColor t;
     leading := leading t; justification := justification t;
     contents := contents t |}.

Definition set_tracking (v : Q) (t : TextFrame) : TextFrame :=
  {| textFont := textFont t; size := size t; tracking := v;
     autoKernType := autoKernType t; fillColor := fillColor t;
     leading := leading t; justification := justification t;
     contents := contents t |}.

Definition set_autoKernType (v : AutoKernType) (t : TextFrame) : TextFrame :=
  {| textFont := textFont t; size := size t; tracking := tracking t;
     autoKernType := v; fillColor := fillColor t;
     leading := leading t; justification := justification t;
     contents := contents t |}.

Definition set_fillColor (v : RGBColor) (t : TextFrame) : TextFrame :=
  {| textFont := textFont t; size := size t; tracking := tracking t;
     autoKernType := autoKernType t; fillColor := v;
     leading := leading t; justification := justification t;
     contents := contents t |}.

Definition set_leading (v : Js.number) (t : TextFrame) : TextFrame :=
  {| textFont := textFont t; size := size t; tracking := tracking t;
     autoKernType := autoKernType t; fillColor := fillColor t;
     leading := v; justification := justification t;
     contents := contents t |}.

Definition set_justification (v : Justification) (t : TextFrame) : TextFrame :=
  {| textFont := textFont t; size := size t; tracking := tracking t;
     autoKernType := autoKernType t; fillColor := fillColor t;
     leading := leading t; justification := v;
     contents := contents t |}.

Definition black : RGBColor :=
  {| red := Js.Fin 0; green := Js.Fin 0; blue := Js.Fin 0 |}.

(** A frame of plain text at a given size; used for examples. *)
Definition plainFrame (s : Q) (txt : string) : TextFrame :=
  {| textFont := "Helvetica"; size := s; tracking := 0;
     autoKernType := KernAuto; fillColor := black;
     leading := Js.Fin (s * 1.2); justification := JLeft;
     contents := txt |}.

(** An element of a selection: a text frame, or an item of another
    [typename]. *)
Inductive PageItem :=
| TextFrameItem (t : TextFrame)
| OtherItem (typename : string).

End Illustrator.

Export Illustrator.

(** ** AutoFitSolver: [autoFitText] *)

Module AutoFit.

(** [AdjustmentParams], as far as [autoFitText] reads it. *)
Record AdjustmentParams := {
  baseFontSize : option Q;
  maxFontSize : option Q
}.

(** The host evaluates [textFrame.overflowed] on every read.  A probe
    answers the [k]-th read of a run from the current font size; any
    host behaviour, consistent or not, is some such function. *)
Definition Probe := nat -> Q -> bool.

(** The frame being fitted and the number of reads of
    [textFrame.overflowed] made so far. *)
Record Fitting := {
  frame : TextFrame;
  queries : nat
}.

Section Solver.
Variable probe : Probe.

(** One read of [textFrame.overflowed]. *)
Definition overflowed (st : Fitting) : bool * Fitting :=
  (probe (queries st) (size (frame st)),
   {| frame := frame st; queries := S (queries st) |}).

(** [textRange.characterAttributes.size *= c] for a literal [c]: the
    product of two doubles, rounded. *)
Definition scaleSize (c : Q) (st : Fitting) : Fitting :=
  {| frame := set_size (Js.double (size (frame st) * Js.double c))
                (frame st);
     queries := queries st |}.

Definition maxIterations : nat := 20.

(** [while (textFrame.overflowed && iteration < maxIterations)].
    [remaining] is [maxIterations - iteration]; the probe is read
    before the iteration test. *)
Fixpoint shrinkLoop (remaining : nat) (st : Fitting) : Fitting :=
  let (over, st1) := overflowed st in
  if over then
    match remaining with
    | O => st1
    | S n => shrinkLoop n (scaleSize 0.95 st1)
    end
  else st1.

(** [while (!textFrame.overflowed && size < maxFontSize &&
    iteration < maxIterations)], with the overflow test and the
    corrective step inside the body. *)
Fixpoint growLoop (maxSize : Q) (remaining : nat) (st : Fitting)
  : Fitting :=
  let (over, st1) := overflowed st in
  if negb over && Js.Qltb (size (frame st1)) maxSize then
    match remaining with
    | O => st1
    | S n =>
        let st2 := scaleSize 1.05 st1 in
        let (over2, st3) := overflowed st2 in
        if over2 then scaleSize 0.95 st3
        else growLoop maxSize n st3
    end
  else st1.

Definition autoFitText (textFrame : TextFrame)
           (params : AdjustmentParams) : Fitting :=
  let base := Js.orDouble (baseFontSize params) 12 in
  let maxSize := Js.orDouble (maxFontSize params) 72 in
  let st0 := {| frame := set_size base textFrame; queries := 0 |} in
  let st1 := shrinkLoop maxIterations st0 in
  growLoop maxSize maxIterations st1.

End Solver.

(** A host whose frame overflows exactly above a threshold size. *)
Definition thresholdProbe (limit : Q) : Probe :=
  fun _ s => Js.Qltb limit s.

(** Sizes from [smallest] to [largest] lie well inside the normal
    range of the doubles: no product of [autoFitText] that starts there
    underflows or overflows. *)
Definition smallest : Q := 2 ^ (-1000).
Definition largest : Q := 2 ^ 1000.

(** The relative amount by which a rounded product with the literal
    [0.95] or [1.05] can differ from the exact product, and the least
    and greatest factors of one step that result. *)
Definition slack : Q := 2 ^ (-52).
Definition shrinkLow : Q := 0.95 * (1 - slack).
Definition shrinkHigh : Q := 0.95 * (1 + slack).
Definition growLow : Q := 1.05 * (1 - slack).
Definition growHigh : Q := 1.05 * (1 + slack).

(** A host that reports overflow on the first [k] reads only. *)
Definition firstReadsProbe (k : nat) : Probe :=
  fun i _ => Nat.ltb i k.

End AutoFit.

(** ** TypographyAnalyzer *)

Module Analyzer.

Record TextElement := {
  family : string;
  fontSize : Q;
  lineHeight : Q;
  characterSpacing : option Q;
  lineLength : option Z
}.

(** An element with the given family, size and line height and no
    other property. *)
Definition plainElement (fam : string) (fs lh : Q) : TextElement :=
  {| family := fam; fontSize := fs; lineHeight := lh;
     characterSpacing := None; lineLength := None |}.

Inductive ResultType := Success | Info | Warning | Error.

Record AnalysisResult := {
  type : ResultType;
  category : string;
  message : string;
  suggestions : list string
}.

Definition resultTypeOf (r : option AnalysisResult) : option ResultType :=
  match r with
  | Some a => Some (type a)
  | None => None
  end.

(** *** Font categories *)

Inductive Category := serif | sansSerif | script | monospace.

Definition categoryName (c : Category) : string :=
  match c with
  | serif => "serif"
  | sansSerif => "sansSerif"
  | script => "script"
  | monospace => "monospace"
  end.

Definition Category_eqb (a b : Category) : bool :=
  match a, b with
  | serif, serif | sansSerif, sansSerif
  | script, script | monospace, monospace => true
  | _, _ => false
  end.

(** [this.fontCategories], in the insertion order of its keys. *)
Definition fontCategories : list (Category * list string) :=
  [ (serif, ["Times"; "Georgia"; "Minion"; "Garamond"; "Baskerville"]);
    (sansSerif, ["Helvetica"; "Arial"; "Futura"; "Avenir"; "Proxima"]);
    (script, ["Script"; "Brush"; "Handwriting"; "Calligraphy"]);
    (monospace, ["Courier"; "Monaco"; "Consolas"; "Menlo"]) ].

Definition lowerChar (c : ascii) : ascii :=
  let n := nat_of_ascii c in
  if (Nat.leb 65 n && Nat.leb n 90)%bool then ascii_of_nat (n + 32) else c.

Fixpoint toLowerCase (s : string) : string :=
  match s with
  | EmptyString => EmptyString
  | String c t => String (lowerChar c) (toLowerCase t)
  end.

(** [s.includes(sub)]. *)
Fixpoint includes (s sub : string) : bool :=
  (String.prefix sub s
   || match s with
      | EmptyString => false
      | String _ t => includes t sub
      end)%bool.

Definition categorizeFontFamily (fontFamily : string) : Category :=
  let family := toLowerCase fontFamily in
  match
    List.find
      (fun entry : Category * list string =>
         existsb (fun font => includes family (toLowerCase font))
                 (snd entry))
      fontCategories
  with
  | Some entry => fst entry
  | None =>
      if includes family "serif" then serif
      else if (includes family "sans" || includes family "arial"
               || includes family "helvetica")%bool then sansSerif
      else if (includes family "mono" || includes family "courier")%bool
           then monospace
      else if (includes family "script" || includes family "italic")%bool
           then script
      else sansSerif
  end.

(** [[...new Set(xs)]]: first occurrences, in order. *)
Definition dedupe {A} (eqb : A -> A -> bool) (xs : list A) : list A :=
  fold_left
    (fun seen x => if existsb (eqb x) seen then seen else seen ++ [x])
    xs [].

(** *** Font pairing *)

Definition analyzeFontPairing (elements : list TextElement)
  : option AnalysisResult :=
  let fonts := dedupe String.eqb (map family elements) in
  if Nat.ltb (length fonts) 2 then None
  else
    let categories := map categorizeFontFamily fonts in
    let uniqueCategories := dedupe Category_eqb categories in
    if Nat.eqb (length uniqueCategories) 1 then
      Some {|
        type := Warning;
        category := "font-pairing";
        message :=
          Js.template
            [ "All fonts are from the same category (";
              match uniqueCategories with
              | c :: _ => categoryName c
              | [] => "undefined"
              end;
              "). Consider adding contrast with a different font category." ];
        suggestions :=
          [ "Try pairing serif with sans-serif fonts";
            "Use different weights within the same font family";
            "Consider a script or display font for headings" ]
      |}
    else if (existsb (Category_eqb script) categories
             && Nat.ltb 1 (length (List.filter (fun c => Category_eqb c script)
                                          categories)))%bool then
      Some {|
        type := Error;
        category := "font-pairing";
        message := "Multiple script fonts detected. This can create visual chaos and poor readability.";
        suggestions :=
          [ "Use only one script font per design";
            "Pair script fonts with simple sans-serif or serif fonts";
            "Reserve script fonts for headings or accents only" ]
      |}
    else
      Some {|
        type := Success;
        category := "font-pairing";
        message :=
          Js.template
            [ "Good font variety detected: ";
              String.concat ", " (map categoryName uniqueCategories);
              ". This creates nice typographic contrast." ];
        suggestions :=
          [ "Ensure sufficient size difference between font pairs";
            "Test readability at final output size" ]
      |}.

(** *** Readability *)

(** [this.readabilityRules]. *)
Definition minFontSize : Q := 9.
Definition maxFontSize : Q := 72.
Definition optimalLineHeight : Q := 1.4.
Definition minLineHeight : Q := 1.2.
Definition maxLineHeight : Q := 1.8.
Definition minLineLength : Z := 45.
Definition maxLineLength : Z := 75.

(** The arrays [issues] and [suggestions] of one element. *)
Record Findings := {
  issues : list string;
  fixes : list string
}.

Definition push (issue advice : string) (f : Findings) : Findings :=
  {| issues := issues f ++ [issue]; fixes := fixes f ++ [advice] |}.

Section Readability.
(** Conversion of a number to its decimal text inside a template
    string; a built-in of the language, left abstract. *)
Variable numberToString : Q -> string.

Definition checkFontSize (e : TextElement) (f : Findings) : Findings :=
  if Js.Qltb (fontSize e) minFontSize then
    push (Js.template
            ["Font size "; numberToString (fontSize e); "pt is too small"])
         (Js.template
            ["Increase font size to at least ";
             numberToString minFontSize; "pt"])
         f
  else if Js.Qgtb (fontSize e) maxFontSize then
    push (Js.template
            ["Font size "; numberToString (fontSize e);
             "pt may be too large for body text"])
         "Consider reducing font size for better readability"
         f
  else f.

Definition checkLineHeight (e : TextElement) (f : Findings) : Findings :=
  if Js.Qltb (lineHeight e) minLineHeight then
    push (Js.template
            ["Line height "; numberToString (lineHeight e);
             " is too tight"])
         (Js.template
            ["Increase line height to at least ";
             numberToString minLineHeight])
         f
  else if Js.Qgtb (lineHeight e) maxLineHeight then
    push (Js.template
            ["Line height "; numberToString (lineHeight e);
             " is too loose"])
         (Js.template
            ["Reduce line height to around ";
             numberToString optimalLineHeight])
         f
  else f.

(** [if (element.lineLength)]: an absent length and the length [0]
    both skip the check. *)
Definition checkLineLength (e : TextElement) (f : Findings) : Findings :=
  match lineLength e with
  | Some n =>
      if Z.eqb n 0 then f
      else if Z.ltb n minLineLength then
        push (Js.template
                ["Line length "; numberToString (inject_Z n);
                 " characters is too short"])
             "Increase column width or font size"
             f
      else if Z.gtb n maxLineLength then
        push (Js.template
                ["Line length "; numberToString (inject_Z n);
                 " characters is too long"])
             "Reduce column width or use multi-column layout"
             f
      else f
  | None => f
  end.

Definition checkCharacterSpacing (e : TextElement) (f : Findings)
  : Findings :=
  match Js.truthyNum (characterSpacing e) with
  | Some c =>
      if Js.Qgtb (Qabs c) 0.1 then
        push "Extreme character spacing detected"
             "Reduce character spacing for better readability"
             f
      else f
  | None => f
  end.

(** The four checks of one [forEach] callback, in source order. *)
Definition elementFindings (e : TextElement) : Findings :=
  checkCharacterSpacing e
    (checkLineLength e
       (checkLineHeight e
          (checkFontSize e {| issues := []; fixes := [] |}))).

Definition readabilityWarning (index : nat) (f : Findings)
  : AnalysisResult :=
  {| type := Warning;
     category := "readability";
     message :=
       Js.template
         [ "Element ";
           numberToString (inject_Z (Z.of_nat (index + 1)));
           ": ";
           String.concat ", " (issues f) ];
     suggestions := fixes f |}.

(** [elements.forEach((element, index) => ...)] pushing to [results]. *)
Fixpoint readabilityLoop (index : nat) (elements : list TextElement)
         (results : list AnalysisResult) : list AnalysisResult :=
  match elements with
  | [] => results
  | e :: rest =>
      let f := elementFindings e in
      let results' :=
        if Nat.ltb 0 (length (issues f))
        then results ++ [readabilityWarning index f]
        else results in
      readabilityLoop (S index) rest results'
  end.

Definition analyzeReadability (elements : list TextElement)
  : list AnalysisResult :=
  readabilityLoop 0 elements [].

End Readability.

(** *** Hierarchy *)

(** [ratios.push(fontSizes[i] / fontSizes[i + 1])]. *)
Fixpoint ratiosOf (fontSizes : list Q) : list Js.number :=
  match fontSizes with
  | a :: (b :: _) as rest => Js.div a b :: ratiosOf rest
  | _ => []
  end.

(** [ratio < 1.15 || ratio > 3.0], against the doubles that the two
    literals denote. *)
Definition poorRatio (ratio : Js.number) : bool :=
  (Js.lt ratio (Js.double 1.15) || Js.gt ratio (Js.double 3.0))%bool.

Definition analyzeHierarchy (elements : list TextElement)
  : option AnalysisResult :=
  if Nat.ltb (length elements) 2 then None
  else
    let fontSizes :=
      Js.sort (fun a b => b - a) (map fontSize elements) in
    let ratios := ratiosOf fontSizes in
    let poorRatios := List.filter poorRatio ratios in
    if Nat.ltb 0 (length poorRatios) then
      Some {|
        type := Info;
        category := "hierarchy";
        message := "Typography hierarchy could be improved with better size relationships.";
        suggestions :=
          [ "Use consistent scale ratios (1.25x, 1.5x, 2x)";
            "Ensure minimum 1.2x difference between hierarchy levels";
            "Consider using weight and color for additional hierarchy" ]
      |}
    else
      Some {|
        type := Success;
        category := "hierarchy";
        message := "Good typography hierarchy detected with appropriate size relationships.";
        suggestions :=
          [ "Maintain consistent hierarchy across all pages";
            "Test hierarchy effectiveness with actual content" ]
      |}.

End Analyzer.

(** ** Host script: formatting rules *)

Module Format.

(** A [FormatRule] as parsed from the JSON rule list. *)
Record FormatRule := {
  name : option string;
  selector : string;
  headingThreshold : option Q;
  text : option string;
  fontFamily : option string;
  fontSize : option Q;
  lineHeight : option Q;
  characterSpacing : option Q;
  color : option string
}.

Definition shouldApplyRule (textFrame : TextFrame) (rule : FormatRule)
  : bool :=
  if String.eqb (selector rule) "all" then true
  else if String.eqb (selector rule) "heading" then
    Js.Qgtb (size textFrame) (Js.orNum (headingThreshold rule) 18)
  else if String.eqb (selector rule) "body" then
    Qle_bool (size textFrame) (Js.orNum (headingThreshold rule) 18)
  else if String.eqb (selector rule) "contains" then
    Analyzer.includes (contents textFrame)
      match text rule with
      | Some t => t
      | None => "undefined"
      end
  else false.

(** *** [parseInt(s, 16)] *)

Definition isWhiteSpace (c : ascii) : bool :=
  let n := nat_of_ascii c in
  ((Nat.leb 9 n && Nat.leb n 13) || Nat.eqb n 32)%bool.

Fixpoint trimStart (s : string) : string :=
  match s with
  | String c t => if isWhiteSpace c then trimStart t else s
  | EmptyString => s
  end.

Definition hexDigit (c : ascii) : option Z :=
  let n := nat_of_ascii c in
  if (Nat.leb 48 n && Nat.leb n 57)%bool then Some (Z.of_nat (n - 48))
  else if (Nat.leb 65 n && Nat.leb n 70)%bool then Some (Z.of_nat (n - 55))
  else if (Nat.leb 97 n && Nat.leb n 102)%bool then Some (Z.of_nat (n - 87))
  else None.

(** The value of the longest prefix of hexadecimal digits; [acc] is
    [None] until a digit has been read. *)
Fixpoint hexPrefix (acc : option Z) (s : string) : option Z :=
  match s with
  | String c t =>
      match hexDigit c with
      | Some d =>
          hexPrefix (Some (16 * match acc with Some a => a | None => 0 end
                           + d)%Z) t
      | None => acc
      end
  | EmptyString => acc
  end.

Definition stripHexPrefix (s : string) : string :=
  match s with
  | String "0" (String "x" t) => t
  | String "0" (String "X" t) => t
  | _ => s
  end.

Definition parseInt16 (s : string) : Js.number :=
  let s1 := trimStart s in
  let (negative, s2) :=
    match s1 with
    | String "-" t => (true, t)
    | String "+" t => (false, t)
    | _ => (false, s1)
    end in
  match hexPrefix None (stripHexPrefix s2) with
  | Some v => Js.Fin (inject_Z (if negative then - v else v))
  | None => Js.NaN
  end.

(** [new RGBColor()] filled from [rule.color]; [substring(a, b)] is
    the part from index [a] up to, not including, index [b]. *)
Definition parseColor (c : string) : RGBColor :=
  {| red := parseInt16 (String.substring 1 2 c);
     green := parseInt16 (String.substring 3 2 c);
     blue := parseInt16 (String.substring 5 2 c) |}.

(** *** Rule application *)

(** [app.textFonts.getByName(name)]: the font of that name, or an
    exception ([None]) when the host has none. *)
Definition getByName (textFonts : list string) (fontName : string)
  : option string :=
  List.find (String.eqb fontName) textFonts.

Section Apply.
(** The fonts installed on the host, [app.textFonts]. *)
Variable textFonts : list string.

Definition applyFontFamily (rule : FormatRule) (t : TextFrame)
  : TextFrame :=
  match Js.truthyStr (fontFamily rule) with
  | Some f =>
      match getByName textFonts f with
      | Some font => set_textFont font t
      | None => t
      end
  | None => t
  end.

Definition applyFontSize (rule : FormatRule) (t : TextFrame)
  : TextFrame :=
  match Js.truthyNum (fontSize rule) with
  | Some s => set_size s t
  | None => t
  end.

Definition applyLineHeight (rule : FormatRule) (t : TextFrame)
  : TextFrame :=
  match Js.truthyNum (lineHeight rule) with
  | Some lh =>
      set_leading (Js.mul (Js.toNumber (fontSize rule)) (Js.Fin lh)) t
  | None => t
  end.

Definition applyCharacterSpacing (rule : FormatRule) (t : TextFrame)
  : TextFrame :=
  match Js.truthyNum (characterSpacing rule) with
  | Some c => set_tracking c t
  | None => t
  end.

Definition applyColor (rule : FormatRule) (t : TextFrame) : TextFrame :=
  match Js.truthyStr (color rule) with
  | Some c => set_fillColor (parseColor c) t
  | None => t
  end.

Definition applyFormattingRule (textRange : TextFrame)
           (rule : FormatRule) : TextFrame :=
  applyColor rule
    (applyCharacterSpacing rule
       (applyLineHeight rule
          (applyFontSize rule
             (applyFontFamily rule textRange)))).

(** [rule.name || "rule_" + j]. *)
Definition ruleId (rule : FormatRule) (j : nat) : string :=
  match Js.truthyStr (name rule) with
  | Some n => n
  | None => String.append "rule_" (NilZero.string_of_uint (Nat.to_uint j))
  end.

(** The inner loop of [batchFormatText] over the rules, for one
    text frame. *)
Fixpoint formatLoop (j : nat) (rules : list FormatRule)
         (textFrame : TextFrame) (appliedRules : list string)
  : TextFrame * list string :=
  match rules with
  | [] => (textFrame, appliedRules)
  | rule :: rest =>
      if shouldApplyRule textFrame rule then
        formatLoop (S j) rest (applyFormattingRule textFrame rule)
                   (appliedRules ++ [ruleId rule j])
      else formatLoop (S j) rest textFrame appliedRules
  end.

Definition formatFrame (rules : list FormatRule) (textFrame : TextFrame)
  : TextFrame * list string :=
  formatLoop 0 rules textFrame [].

End Apply.

End Format.

(** ** Host script: typography fixes *)

Module Fix.

(** The [parameters] object of [applyTypographyFix]. *)
Record Parameters := {
  opticalKerning : bool;
  kerningPairs : bool;
  tracking : option Q;
  scaleRatio : option Q;
  baseSize : option Q;
  lineHeight : option Q;
  characterSpacing : option Q;
  alignment : option string
}.

Definition noParameters : Parameters :=
  {| opticalKerning := false; kerningPairs := false; tracking := None;
     scaleRatio := None; baseSize := None; lineHeight := None;
     characterSpacing := None; alignment := None |}.

(** The result objects pushed by the four fixes. *)
Inductive FixResult :=
| KerningResult (index : nat)
| HierarchyResult (index : nat) (oldSize newSize : Q)
| ReadabilityResult (index : nat)
| AlignmentResult (index : nat) (alignmentApplied : option string).

(** A loop over [selection] that mutates each text frame on its own
    and pushes one result for it. *)
Fixpoint eachTextFrame (body : TextFrame -> TextFrame)
         (result : nat -> FixResult) (i : nat)
         (selection : list PageItem) : list PageItem * list FixResult :=
  match selection with
  | [] => ([], [])
  | item :: rest =>
      let (rest', results) := eachTextFrame body result (S i) rest in
      match item with
      | TextFrameItem t => (TextFrameItem (body t) :: rest',
                            result i :: results)
      | OtherItem _ => (item :: rest', results)
      end
  end.

Definition applyKerningFix (selection : list PageItem)
           (parameters : Parameters) : list PageItem * list FixResult :=
  eachTextFrame
    (fun t =>
       let t1 := if opticalKerning parameters
                 then set_autoKernType KernOptical t else t in
       if kerningPairs parameters
       then set_tracking (Js.orNum (tracking parameters) 0) t1
       else t1)
    KerningResult 0 selection.

Definition applyReadabilityFix (selection : list PageItem)
           (parameters : Parameters) : list PageItem * list FixResult :=
  eachTextFrame
    (fun t =>
       let t1 := match Js.truthyNum (lineHeight parameters) with
                 | Some lh => set_leading (Js.Fin (size t * lh)) t
                 | None => t
                 end in
       match Js.truthyNum (characterSpacing parameters) with
       | Some c => set_tracking c t1
       | None => t1
       end)
    ReadabilityResult 0 selection.

Definition applyAlignmentFix (selection : list PageItem)
           (parameters : Parameters) : list PageItem * list FixResult :=
  eachTextFrame
    (fun t =>
       match Js.truthyStr (alignment parameters) with
       | Some a =>
           if String.eqb a "left" then set_justification JLeft t
           else if String.eqb a "center" then set_justification JCenter t
           else if String.eqb a "right" then set_justification JRight t
           else if String.eqb a "justify"
                then set_justification JFullJustify t
           else t
       | None => t
       end)
    (fun i => AlignmentResult i (alignment parameters)) 0 selection.

(** *** HierarchyScaler: [applyHierarchyFix] *)

(** An entry [{frame, size, index}] of the local array [textFrames];
    [frame] is the object [selection[index]], so the index stands for
    it, and [entrySize] is the property [size] of the entry. *)
Record Entry := {
  entrySize : Q;
  index : nat
}.

Fixpoint collectFrames (i : nat) (selection : list PageItem)
  : list Entry :=
  match selection with
  | [] => []
  | TextFrameItem t :: rest =>
      {| entrySize := size t; index := i |} :: collectFrames (S i) rest
  | OtherItem _ :: rest => collectFrames (S i) rest
  end.

(** [function(a, b) { return b.size - a.size; }] *)
Definition bySizeDescending (a b : Entry) : Q := entrySize b - entrySize a.

Definition setItemSize (v : Q) (item : PageItem) : PageItem :=
  match item with
  | TextFrameItem t => TextFrameItem (set_size v t)
  | OtherItem _ => item
  end.

(** [parameters.scaleRatio || 1.25] *)
Definition baseRatio (parameters : Parameters) : Q :=
  Js.orNum (scaleRatio parameters) 1.25.

(** The size given to the entry at position [j] of [n] sorted entries:
    [baseSize * Math.pow(baseRatio, n - j - 1)], kept as the exact
    value of this formula. *)
Definition newSizeAt (parameters : Parameters) (n j : nat) (item : Entry)
  : Q :=
  match Js.truthyNum (baseSize parameters) with
  | Some b => b * Js.pow (baseRatio parameters) (n - j - 1)
  | None => entrySize item
  end.

Fixpoint scaleLoop (parameters : Parameters) (n j : nat)
         (textFrames : list Entry) (selection : list PageItem)
         (results : list FixResult) : list PageItem * list FixResult :=
  match textFrames with
  | [] => (selection, results)
  | item :: rest =>
      let newSize := newSizeAt parameters n j item in
      scaleLoop parameters n (S j) rest
        (alter (setItemSize newSize) (index item) selection)
        (results ++ [HierarchyResult (index item) (entrySize item) newSize])
  end.

Definition sortedFrames (selection : list PageItem) : list Entry :=
  Js.sort bySizeDescending (collectFrames 0 selection).

Definition applyHierarchyFix (selection : list PageItem)
           (parameters : Parameters) : list PageItem * list FixResult :=
  let textFrames := sortedFrames selection in
  scaleLoop parameters (length textFrames) 0 textFrames selection [].

End Fix.

(** ** Host script: entry points *)

Module Script.

(** An entry of [doc.selection]: a selected text frame is the very
    object that [doc.textFrames] holds at some index [i]; any other
    item is known by its [typename]. *)
Inductive Selected :=
| SelectedFrame (i : nat)
| SelectedOther (typename : string).

(** [doc.textFrames] with the state of each frame, and [doc.selection]
    as references into it: what is written to a frame through the
    selection is read through [doc.textFrames], and the other way
    round. *)
Record Document := {
  selection : list Selected;
  textFrames : list TextFrame
}.

(** The item that an entry of the selection stands for, in its current
    state.  An index beyond the document's frames, which the host
    never hands out, reads as an item that is no text frame. *)
Definition selectedItem (frames : list TextFrame) (entry : Selected)
  : PageItem :=
  match entry with
  | SelectedFrame i =>
      match frames !! i with
      | Some t => TextFrameItem t
      | None => OtherItem "TextFrame"
      end
  | SelectedOther typename => OtherItem typename
  end.

(** [doc.selection] as the fixes see it. *)
Definition selectionItems (doc : Document) : list PageItem :=
  map (selectedItem (textFrames doc)) (selection doc).

(** The frames of the document after the selected items have been
    changed to [items]. *)
Fixpoint storeItems (entries : list Selected) (items : list PageItem)
         (frames : list TextFrame) : list TextFrame :=
  match entries, items with
  | SelectedFrame i :: entries', TextFrameItem t :: items' =>
      storeItems entries' items' (<[i := t]> frames)
  | _ :: entries', _ :: items' => storeItems entries' items' frames
  | _, _ => frames
  end.

(** [app]: the active document, if any document is open, and the
    installed fonts. *)
Record App := {
  activeDocument : option Document;
  textFonts : list string
}.

(** [{index, appliedRules}] *)
Record FormatResult := {
  index : nat;
  appliedRules : list string
}.

(** The objects serialised by the entry points. *)
Inductive Response :=
| Failure (error : string)
| FixApplied (fixType : string) (results : list Fix.FixResult)
| Formatted (processed : nat) (results : list FormatResult).

(** [new Error(message)], and [error.toString()]. *)
Inductive Thrown := JsError (message : string).

Definition errorToString (e : Thrown) : string :=
  match e with
  | JsError m => String.append "Error: " m
  end.

(** The [switch (fixType)] of [applyTypographyFix]. *)
Definition dispatchFix (fixType : string) (sel : list PageItem)
           (parameters : Fix.Parameters)
  : Thrown + list PageItem * list Fix.FixResult :=
  if String.eqb fixType "kerning" then
    inr (Fix.applyKerningFix sel parameters)
  else if String.eqb fixType "hierarchy" then
    inr (Fix.applyHierarchyFix sel parameters)
  else if String.eqb fixType "readability" then
    inr (Fix.applyReadabilityFix sel parameters)
  else if String.eqb fixType "alignment" then
    inr (Fix.applyAlignmentFix sel parameters)
  else inl (JsError (String.append "Unknown fix type: " fixType)).

Definition applyTypographyFix (app : App) (fixType : string)
           (parameters : Fix.Parameters) : App * Response :=
  match activeDocument app with
  | None => (app, Failure "No document is open")
  | Some doc =>
      match dispatchFix fixType (selectionItems doc) parameters with
      | inr (items', results) =>
          ({| activeDocument :=
                Some {| selection := selection doc;
                        textFrames :=
                          storeItems (selection doc) items'
                            (textFrames doc) |};
              textFonts := textFonts app |},
           FixApplied fixType results)
      | inl e => (app, Failure (errorToString e))
      end
  end.

(** The outer loop of [batchFormatText] over [doc.textFrames]. *)
Fixpoint batchLoop (fonts : list string) (rules : list Format.FormatRule)
         (i : nat) (frames : list TextFrame)
  : list TextFrame * list FormatResult :=
  match frames with
  | [] => ([], [])
  | textFrame :: rest =>
      let (textFrame', applied) :=
        Format.formatFrame fonts rules textFrame in
      let (rest', results) := batchLoop fonts rules (S i) rest in
      (textFrame' :: rest',
       {| index := i; appliedRules := applied |} :: results)
  end.

Definition batchFormatText (app : App)
           (formatRules : list Format.FormatRule) : App * Response :=
  match activeDocument app with
  | None => (app, Failure "No document is open")
  | Some doc =>
      let (frames', results) :=
        batchLoop (textFonts app) formatRules 0 (textFrames doc) in
      ({| activeDocument :=
            Some {| selection := selection doc; textFrames := frames' |};
          textFonts := textFonts app |},
       Formatted (length results) results)
  end.

End Script.

(** ** Notions of the specification

    Predicates that follow the wording of the specification, against
    which the functions above are compared. *)

Module Spec.
Import Analyzer.

(** The number of elements whose family maps to [script]. *)
Definition scriptCount (elements : list TextElement) : nat :=
  length (List.filter
            (fun e => Category_eqb (categorizeFontFamily (family e)) script)
            elements).

(** The four readability checks: font size outside [9, 72], line
    height outside [1.2, 1.8], line length outside [45, 75] when
    present, tracking magnitude above 0.1. *)
Definition fontSizeFails (e : TextElement) : bool :=
  (Js.Qltb (fontSize e) 9 || Js.Qgtb (fontSize e) 72)%bool.

Definition lineHeightFails (e : TextElement) : bool :=
  (Js.Qltb (lineHeight e) 1.2 || Js.Qgtb (lineHeight e) 1.8)%bool.


Definition spacingFails (e : TextElement) : bool :=
  match characterSpacing e with
  | Some c => Js.Qgtb (Qabs c) 0.1
  | None => false
  end.

(** The line-length check restricted to a length that is present and
    not zero. *)
Definition nonzeroLineLengthFails (e : TextElement) : bool :=
  match lineLength e with
  | Some n => (negb (Z.eqb n 0) && (Z.ltb n 45 || Z.ltb 75 n))%bool
  | None => false
  end.

Definition failedChecks (e : TextElement) : nat :=
  (Nat.b2n (fontSizeFails e) + Nat.b2n (lineHeightFails e)
   + Nat.b2n (nonzeroLineLengthFails e) + Nat.b2n (spacingFails e))%nat.




(** The selectors and fix types of a valid configuration. *)
Definition knownSelector (s : string) : Prop :=
  s = "all" \/ s = "heading" \/ s = "body" \/ s = "contains".

Definition knownFixType (s : string) : Prop :=
  s = "kerning" \/ s = "hierarchy" \/ s = "readability" \/ s = "alignment".

(** The font sizes of the text frames of a selection, in order. *)
Fixpoint frameSizes (selection : list PageItem) : list Q :=
  match selection with
  | [] => []
  | TextFrameItem t :: rest => size t :: frameSizes rest
  | OtherItem _ :: rest => frameSizes rest
  end.

(** The ranked entries of a selection with the sizes that base size
    [b] assigns to them. *)
Definition rescaled (parameters : Fix.Parameters) (b : Q)
           (selection : list PageItem) : list Fix.Entry :=
  let ranked := Fix.sortedFrames selection in
  imap (fun k e =>
          {| Fix.entrySize :=
               b * Js.pow (Fix.baseRatio parameters) (length ranked - 1 - k);
             Fix.index := Fix.index e |})
       ranked.

(** Two items of the same kind, with equal font sizes if they are text
    frames. *)
Definition sameSize (x y : PageItem) : Prop :=
  match x, y with
  | TextFrameItem t, TextFrameItem u => size t == size u
  | OtherItem m, OtherItem n => m = n
  | _, _ => False
  end.

(** A selection and a later state of it hold the same items with
    equal font sizes. *)
Definition sameSizes (a b : list PageItem) : Prop :=
  Forall2 sameSize a b.

End Spec.

(** ** TypographyAnalyzer: whole analysis and recommendations *)

Module Report.
Import Analyzer.

(** A result as [analyzeElements] returns it.  The results of the three
    analyzers carry a [category]; the warning for an empty selection
    has none. *)
Record Result := {
  type : ResultType;
  category : option string;
  message : string;
  suggestions : list string
}.

Definition ofAnalysis (r : AnalysisResult) : Result :=
  {| type := Analyzer.type r;
     category := Some (Analyzer.category r);
     message := Analyzer.message r;
     suggestions := Analyzer.suggestions r |}.

(** [if (result) { results.push(result); }] *)
Definition pushIfAny (r : option AnalysisResult) (results : list Result)
  : list Result :=
  match r with
  | Some a => results ++ [ofAnalysis a]
  | None => results
  end.

Inductive Priority := High | Medium | Low.

Record Recommendation := {
  priority : Priority;
  text : string;
  action : string
}.

Definition isType (k : ResultType) (r : Result) : bool :=
  match k, type r with
  | Success, Success | Info, Info | Warning, Warning | Error, Error => true
  | _, _ => false
  end.

Section Rendering.
(** Conversion of a number to text inside a template string. *)
Variable numberToString : Q -> string.

Definition analyzeElements (elements : list TextElement) : list Result :=
  match elements with
  | [] =>
      [ {| type := Warning;
           category := None;
           message := "No text elements found to analyze";
           suggestions :=
             ["Select some text elements in Illustrator and try again"] |} ]
  | _ :: _ =>
      let results := pushIfAny (analyzeFontPairing elements) [] in
      let results :=
        results ++ map ofAnalysis (analyzeReadability numberToString elements)
      in
      pushIfAny (analyzeHierarchy elements) results
  end.

Definition countText (n : nat) : string :=
  numberToString (inject_Z (Z.of_nat n)).

Definition generateRecommendations (analysisResults : list Result)
  : list Recommendation :=
  let errors := List.filter (isType Error) analysisResults in
  let warnings := List.filter (isType Warning) analysisResults in
  let recommendations := [] in
  let recommendations :=
    if Nat.ltb 0 (length errors) then
      recommendations
        ++ [ {| priority := High;
                text :=
                  Js.template
                    [ countText (length errors);
                      " critical typography issues need immediate attention." ];
                action := "Fix errors first before proceeding with design." |} ]
    else recommendations in
  let recommendations :=
    if Nat.ltb 0 (length warnings) then
      recommendations
        ++ [ {| priority := Medium;
                text :=
                  Js.template
                    [ countText (length warnings);
                      " typography improvements recommended." ];
                action := "Review warnings to enhance design quality." |} ]
    else recommendations in
  if (Nat.eqb (length errors) 0 && Nat.eqb (length warnings) 0)%bool then
    recommendations
      ++ [ {| priority := Low;
              text := "Typography looks good! No major issues detected.";
              action := "Consider fine-tuning details for perfection." |} ]
  else recommendations.

End Rendering.

End Report.

(** ** Host script: helper functions *)

Module Helpers.

(** [getFontWeight(textFont)]; [None] is a missing font object, [Some]
    holds [textFont.name]. *)
Definition getFontWeight (textFont : option string) : string :=
  match textFont with
  | None => "regular"
  | Some fontName0 =>
      let fontName := Analyzer.toLowerCase fontName0 in
      if Analyzer.includes fontName "bold" then "bold"
      else if Analyzer.includes fontName "light" then "light"
      else if Analyzer.includes fontName "medium" then "medium"
      else if Analyzer.includes fontName "semibold" then "semibold"
      else if Analyzer.includes fontName "black" then "black"
      else "regular"
  end.

(** A colour object: an [RGBColor], or a colour of another [typename]. *)
Inductive Color :=
| RGB (c : RGBColor)
| NonRGB (typename : string).

(** [Math.round]. *)
Definition round (q : Q) : Z := Qfloor (q + 0.5).

(** [n.toString(16)] on an integer. *)
Definition integerToHex (n : Z) : string :=
  let digits :=
    HexadecimalString.NilZero.string_of_uint (N.to_hex_uint (Z.to_N (Z.abs n)))
  in
  if Z.ltb n 0 then String "-" digits else digits.

(** [Math.round(x).toString(16)] *)
Definition roundedToHex (x : Js.number) : string :=
  match x with
  | Js.NaN => "NaN"
  | Js.Infinity false => "Infinity"
  | Js.Infinity true => "-Infinity"
  | Js.Fin q => integerToHex (round q)
  end.

(** [s.padStart(2, '0')] *)
Definition padStart2 (s : string) : string :=
  match s with
  | EmptyString => "00"
  | String c EmptyString => String "0" s
  | _ => s
  end.

(** [getColorHex(color)]; [None] is a missing colour object, on which
    the property access throws and the [catch] answers. *)
Definition getColorHex (color : option Color) : string :=
  match color with
  | Some (RGB c) =>
      let r := padStart2 (roundedToHex (red c)) in
      let g := padStart2 (roundedToHex (green c)) in
      let b := padStart2 (roundedToHex (blue c)) in
      String.append "#" (String.append r (String.append g b))
  | Some (NonRGB _) => "#000000"
  | None => "#000000"
  end.

(** [text.split(sep)] for a separator of one character. *)
Fixpoint split (sep : ascii) (s : string) : list string :=
  match s with
  | EmptyString => [EmptyString]
  | String c t =>
      if Ascii.eqb c sep then EmptyString :: split sep t
      else
        match split sep t with
        | head :: rest => String c head :: rest
        | [] => [String c EmptyString]
        end
  end.

(** The line feed character. *)
Definition lineFeed : ascii := ascii_of_nat 10.

(** The loop of [estimateLineLength] over [lines]. *)
Definition longestLine (lines : list string) : Z :=
  fold_left
    (fun maxLineLength line =>
       if Z.ltb maxLineLength (Z.of_nat (String.length line))
       then Z.of_nat (String.length line)
       else maxLineLength)
    lines 0%Z.

Definition estimateLineLength (text : string) (frameWidth : Q) : Z :=
  let avgCharWidth := 7 in
  let maxCharsPerLine := Qfloor (frameWidth / avgCharWidth) in
  let lines := split lineFeed text in
  let maxLineLength := longestLine lines in
  Z.min maxLineLength maxCharsPerLine.

(** [item.typename] *)
Definition typenameOf (item : PageItem) : string :=
  match item with
  | TextFrameItem _ => "TextFrame"
  | OtherItem typename => typename
  end.

(** The loop [if (xs.indexOf(x) === -1) xs.push(x)] over a list of
    names: the names in order of first appearance. *)
Definition distinctNames (names : list string) : list string :=
  fold_left
    (fun seen x => if existsb (String.eqb x) seen then seen else seen ++ [x])
    names [].

Definition getSelectionTypes (selection : list PageItem) : list string :=
  distinctNames (map typenameOf selection).

(** [getUsedFonts(doc)] and [getUsedColors(doc)], on [doc.textFrames]. *)
Definition getUsedFonts (textFrames : list TextFrame) : list string :=
  distinctNames (map textFont textFrames).

Definition getUsedColors (textFrames : list TextFrame) : list string :=
  distinctNames
    (map (fun t => getColorHex (Some (RGB (fillColor t)))) textFrames).

End Helpers.

(** ** Further notions used in the properties *)

Module Notions.

(** The number of text frames of a selection. *)
Definition textFrameCount (selection : list PageItem) : nat :=
  length (Spec.frameSizes selection).

(** What the fixes leave alone on a text frame: its contents, font and
    fill colour; other items are left as they are. *)
Definition sameText (x y : PageItem) : Prop :=
  match x, y with
  | TextFrameItem t, TextFrameItem u =>
      contents u = contents t /\ textFont u = textFont t
      /\ fillColor u = fillColor t
  | OtherItem m, OtherItem n => m = n
  | _, _ => False
  end.

(** The index of a result of a fix. *)
Definition resultIndex (r : Fix.FixResult) : nat :=
  match r with
  | Fix.KerningResult i => i
  | Fix.HierarchyResult i _ _ => i
  | Fix.ReadabilityResult i => i
  | Fix.AlignmentResult i _ => i
  end.

(** The indices of the text frames of a selection, counted from [i]. *)
Fixpoint textFrameIndices (i : nat) (selection : list PageItem) : list nat :=
  match selection with
  | [] => []
  | TextFrameItem _ :: rest => i :: textFrameIndices (S i) rest
  | OtherItem _ :: rest => textFrameIndices (S i) rest
  end.

(** A change of text frames that leaves other items alone. *)
Definition onTextFrame (body : TextFrame -> TextFrame) (item : PageItem)
  : PageItem :=
  match item with
  | TextFrameItem t => TextFrameItem (body t)
  | OtherItem _ => item
  end.

(** An alignment value that [applyAlignmentFix] knows. *)
Definition knownAlignment (a : string) : Prop :=
  a = "left" \/ a = "center" \/ a = "right" \/ a = "justify".

(** The type of the font pairing result, from the four tests of
    [analyzeFontPairing]. *)
Definition pairingType (elements : list Analyzer.TextElement)
  : option Analyzer.ResultType :=
  let fonts := Analyzer.dedupe String.eqb (map Analyzer.family elements) in
  let categories := map Analyzer.categorizeFontFamily fonts in
  if Nat.ltb (length fonts) 2 then None
  else if Nat.eqb (length (Analyzer.dedupe Analyzer.Category_eqb categories)) 1
       then Some Analyzer.Warning
  else if (existsb (Analyzer.Category_eqb Analyzer.script) categories
           && Nat.ltb 1 (length (List.filter
                                   (fun c => Analyzer.Category_eqb c Analyzer.script)
                                   categories)))%bool
       then Some Analyzer.Error
  else Some Analyzer.Success.

(** A rendering of whole numbers as decimal text, used in examples. *)
Definition wholeNumberText (q : Q) : string :=
  DecimalString.NilZero.string_of_int (Z.to_int (Qfloor q)).

(** The values of a line length that pass the readability check. *)
Definition lineLengthPasses (n : option Z) : Prop :=
  match n with
  | Some n => n = 0%Z \/ (45 <= n /\ n <= 75)%Z
  | None => True
  end.

(** The values of a tracking that pass the readability check. *)
Definition spacingPasses (c : option Q) : Prop :=
  match c with
  | Some c => Qabs c <= 0.1
  | None => True
  end.

End Notions.

(** * Properties *)

(** ** Facts about the number model *)

Module JsFacts.
Import Js.

Lemma Qltb_lt x y : Qltb x y = true <-> x < y.
Proof.
  unfold Qltb. rewrite negb_true_iff, <- not_true_iff_false, Qle_bool_iff.
  split; [apply Qnot_le_lt | apply Qlt_not_le].
Qed.

Lemma Qltb_ge x y : Qltb x y = false <-> y <= x.
Proof.
  unfold Qltb. rewrite negb_false_iff. apply Qle_bool_iff.
Qed.

Lemma Qis_zero_true x : Qis_zero x = true <-> x == 0.
Proof. apply Qeq_bool_iff. Qed.

Lemma Qis_zero_false x : Qis_zero x = false <-> ~ x == 0.
Proof.
  unfold Qis_zero. rewrite <- not_true_iff_false, Qeq_bool_iff. tauto.
Qed.

Lemma truthyNum_Some o q : truthyNum o = Some q <-> o = Some q /\ ~ q == 0.
Proof.
  unfold truthyNum. destruct o as [x |]; [| split; [easy | intros [? _]; easy]].
  destruct (Qis_zero x) eqn:E.
  - apply Qis_zero_true in E. split; [easy |].
    intros [[= ->] H]. contradiction.
  - apply Qis_zero_false in E. split.
    + intros [= ->]. auto.
    + intros [[= ->] _]. reflexivity.
Qed.

Lemma orNum_Some q d : ~ q == 0 -> orNum (Some q) d = q.
Proof.
  intros H. unfold orNum.
  assert (E : truthyNum (Some q) = Some q) by (apply truthyNum_Some; auto).
  now rewrite E.
Qed.

Lemma pow_S r n : pow r (S n) == r * pow r n.
Proof.
  unfold pow. rewrite Nat2Z.inj_succ. unfold Z.succ.
  destruct (Qeq_dec r 0) as [E | E].
  - rewrite E. rewrite Qmult_0_l.
    destruct (Z.of_nat n + 1)%Z eqn:Hz; try lia.
    simpl. apply Qpower_positive_0.
  - rewrite Qpower_plus by exact E. simpl (r ^ 1). ring.
Qed.

Lemma pow_0 r : pow r 0 == 1.
Proof. reflexivity. Qed.

Lemma pow_pos r n : 0 < r -> 0 < pow r n.
Proof.
  intros Hr. induction n as [| n IH].
  - rewrite pow_0. lra.
  - rewrite pow_S. nra.
Qed.

Lemma pow_le_one r n : 0 < r -> r <= 1 -> pow r n <= 1.
Proof.
  intros H0 H1. induction n as [| n IH].
  - rewrite pow_0. lra.
  - rewrite pow_S. pose proof (pow_pos r n H0). nra.
Qed.

Lemma pow_le_mono r a b : 1 <= r -> (a <= b)%nat -> pow r a <= pow r b.
Proof.
  intros Hr Hab. induction Hab as [| b Hab IH]; [lra |].
  rewrite pow_S. pose proof (pow_pos r a ltac:(lra)).
  pose proof (pow_pos r b ltac:(lra)). nra.
Qed.

Lemma pow_lt_mono r a b : 1 < r -> (a < b)%nat -> pow r a < pow r b.
Proof.
  intros Hr Hab.
  apply Qlt_le_trans with (pow r (S a)).
  - rewrite pow_S. pose proof (pow_pos r a ltac:(lra)). nra.
  - apply pow_le_mono; [lra | lia].
Qed.

Lemma pow_inj r a b : 1 < r -> pow r a == pow r b -> a = b.
Proof.
  intros Hr E. destruct (Nat.lt_trichotomy a b) as [H | [H | H]];
    [| exact H |].
  - pose proof (pow_lt_mono r a b Hr H). lra.
  - pose proof (pow_lt_mono r b a Hr H). lra.
Qed.

Lemma pow_base_one r n : r == 1 -> pow r n == 1.
Proof.
  intros E. induction n as [| n IH]; [reflexivity |].
  rewrite pow_S, IH, E. ring.
Qed.

(** *** Rounding to a double *)

Lemma pow2_pos k : 0 < 2 ^ k.
Proof. apply Qpower_0_lt. lra. Qed.

Lemma pow2_add a b : 2 ^ (a + b) == 2 ^ a * 2 ^ b.
Proof. apply Qpower_plus. lra. Qed.

Lemma pow2_le a b : (a <= b)%Z -> 2 ^ a <= 2 ^ b.
Proof. intros H. apply Qpower_le_compat_l; [exact H | lra]. Qed.

Lemma pow2_Z n : (0 <= n)%Z -> inject_Z (2 ^ n) == 2 ^ n.
Proof. intros H. now rewrite Zpower_Qpower. Qed.

Lemma log2_bounds (n : Z) :
  (0 < n)%Z ->
  2 ^ Z.log2 n <= inject_Z n /\ inject_Z n < 2 ^ (Z.log2 n + 1).
Proof.
  intros H. destruct (Z.log2_spec n H) as [L U].
  pose proof (Z.log2_nonneg n) as Hn.
  rewrite <- !pow2_Z by lia. split.
  - rewrite <- Zle_Qle. exact L.
  - rewrite <- Zlt_Qlt. exact U.
Qed.

(** [exponentOf] finds the binade of a positive rational. *)
Lemma exponentOf_spec q :
  0 < q -> 2 ^ exponentOf q <= q /\ q < 2 ^ (exponentOf q + 1).
Proof.
  intros Hq. unfold exponentOf.
  set (n := Qnum q). set (d := Zpos (Qden q)).
  assert (Hn : (0 < n)%Z).
  { unfold n. destruct q as [qn qd]. unfold Qlt in Hq. simpl in *. lia. }
  assert (Hd : (0 < d)%Z) by (unfold d; lia).
  assert (Eq : q * inject_Z d == inject_Z n).
  { unfold n, d. destruct q as [qn qd]. simpl.
    rewrite (Qmake_Qdiv qn qd). field.
    intros E. unfold Qeq in E. simpl in E. lia. }
  assert (Hd' : 0 < inject_Z d) by (rewrite <- (Zlt_Qlt 0); exact Hd).
  destruct (log2_bounds n Hn) as [Ln Un].
  destruct (log2_bounds d Hd) as [Ld Ud].
  set (ln := Z.log2 n) in *. set (ld := Z.log2 d) in *.
  pose proof (pow2_pos ld) as Pld.
  destruct (Qle_bool (2 ^ (ln - ld)) q) eqn:T.
  - apply Qle_bool_iff in T. split; [exact T |].
    assert (E : 2 ^ (ln + 1) == 2 ^ (ln - ld + 1) * 2 ^ ld).
    { rewrite <- pow2_add. apply Qpower_comp; [reflexivity | lia]. }
    pose proof (pow2_pos (ln - ld + 1)) as P.
    apply Qnot_le_lt. intros C.
    assert (2 ^ (ln - ld + 1) * inject_Z d <= q * inject_Z d) by nra.
    nra.
  - assert (T' : q < 2 ^ (ln - ld)).
    { apply Qnot_le_lt. intros C. apply Qle_bool_iff in C. congruence. }
    split.
    + assert (E : 2 ^ ln == 2 ^ (ln - ld - 1) * 2 ^ (ld + 1)).
      { rewrite <- pow2_add. apply Qpower_comp; [reflexivity | lia]. }
      pose proof (pow2_pos (ln - ld - 1)) as P.
      apply Qnot_lt_le. intros C.
      assert (q * inject_Z d < 2 ^ (ln - ld - 1) * inject_Z d) by nra.
      nra.
    + assert (E : (ln - ld - 1 + 1 = ln - ld)%Z) by lia.
      rewrite E. exact T'.
Qed.

Lemma roundHalfEven_error x :
  inject_Z (roundHalfEven x) - x <= 1 # 2
  /\ x - inject_Z (roundHalfEven x) <= 1 # 2.
Proof.
  unfold roundHalfEven.
  pose proof (Qfloor_le x) as L. pose proof (Qlt_floor x) as U.
  rewrite inject_Z_plus in U. change (inject_Z 1) with 1 in U.
  destruct (Qcompare_spec (x - inject_Z (Qfloor x)) (1 # 2)) as [E | E | E].
  - destruct (Z.even (Qfloor x)).
    + split; lra.
    + rewrite inject_Z_plus. change (inject_Z 1) with 1. split; lra.
  - split; lra.
  - rewrite inject_Z_plus. change (inject_Z 1) with 1. split; lra.
Qed.

(** In the normal range rounding moves a number by at most the
    relative amount [2^-53]. *)
Lemma double_error q :
  2 ^ (-1022) <= q ->
  q * (1 - 2 ^ (-53)) <= double q /\ double q <= q * (1 + 2 ^ (-53)).
Proof.
  intros Hq. pose proof (pow2_pos (-1022)) as P0.
  assert (Hpos : 0 < q) by lra.
  unfold double.
  pose proof (Qred_correct q) as Er.
  set (q' := Qred q) in *.
  assert (Z0 : Qis_zero q' = false).
  { unfold Qis_zero. apply not_true_iff_false. rewrite Qeq_bool_iff. lra. }
  rewrite Z0.
  assert (S0 : Qltb q' 0 = false).
  { unfold Qltb. apply negb_false_iff. apply Qle_bool_iff. lra. }
  rewrite S0.
  assert (Ea : Qabs q' == q).
  { rewrite Qabs_pos; lra. }
  set (a := Qabs q') in *.
  assert (Ha : 0 < a) by lra.
  destruct (exponentOf_spec a Ha) as [L U].
  set (e := exponentOf a) in *.
  assert (He : (-1022 <= e)%Z).
  { destruct (Z_le_gt_dec (-1022) e) as [H | H]; [exact H |].
    pose proof (pow2_le (e + 1) (-1022) ltac:(lia)). lra. }
  rewrite Z.max_l by lia.
  rewrite Qred_correct.
  set (k := (e - 52)%Z).
  pose proof (pow2_pos k) as Pk.
  destruct (roundHalfEven_error (a / 2 ^ k)) as [R1 R2].
  set (m := inject_Z (roundHalfEven (a / 2 ^ k))) in *.
  assert (Ek : 2 ^ e * 2 ^ (-53) == 2 ^ k * (1 # 2)).
  { rewrite <- pow2_add. unfold k.
    assert (E2 : (e + -53 = (e - 52) + -1)%Z) by lia.
    rewrite E2, pow2_add. reflexivity. }
  assert (Ediv : a / 2 ^ k * 2 ^ k == a) by (field; lra).
  pose proof (pow2_pos (-53)) as P53.
  assert (B : 2 ^ k * (1 # 2) <= q * 2 ^ (-53)).
  { rewrite <- Ek. nra. }
  split; nra.
Qed.

(** Values of [double]: the literals 0.95, 1.05 and 1.15 as the
    host reads them; whole numbers kept; a product and a quotient of
    doubles; a tie rounded to the even neighbour, here among the
    subnormal numbers; underflow to [0]; symmetry in the sign. *)
Example double_values :
  double 0.95 == 4278419646001971 # 4503599627370496
  /\ double 1.05 == 4728779608739021 # 4503599627370496
  /\ double 1.15 == 2589569785738035 # 2251799813685248
  /\ double 12 == 12
  /\ double (double 10.2 * double 1.05)
     == 6029194001142251 # 562949953421312
  /\ double (double 11.4 / double 3.8) == 3 + 2 ^ (-51)
  /\ double (3 * 2 ^ (-1075)) == 2 ^ (-1073)
  /\ double (2 ^ (-1075)) == 0
  /\ double (- (1 # 3)) == - double (1 # 3).
Proof. repeat split; apply Qeq_bool_iff; vm_compute; reflexivity. Qed.

(** Equal rationals round to the same double. *)
Lemma double_comp q q' : q == q' -> double q = double q'.
Proof.
  intros E. unfold double. now rewrite (Qred_complete q q' E).
Qed.

End JsFacts.

(** ** AutoFitSolver *)

Module AutoFitFacts.
Import AutoFit.

(** *** One rounded step *)

Lemma step_factors :
  0 < shrinkLow /\ shrinkLow <= 1 /\ shrinkHigh <= 1
  /\ 1 <= growLow /\ 0 < growHigh
  /\ growHigh * shrinkHigh <= 1 /\ 0 < growLow * shrinkLow
  /\ growLow * shrinkLow <= 1 /\ 0 < shrinkHigh.
Proof.
  repeat split;
    first [ apply Qle_bool_iff; vm_compute; reflexivity
          | apply JsFacts.Qltb_lt; vm_compute; reflexivity ].
Qed.

Lemma literal_factors :
  shrinkLow <= Js.double 0.95 * (1 - 2 ^ (-53))
  /\ Js.double 0.95 * (1 + 2 ^ (-53)) <= shrinkHigh
  /\ growLow <= Js.double 1.05 * (1 - 2 ^ (-53))
  /\ Js.double 1.05 * (1 + 2 ^ (-53)) <= growHigh
  /\ 2 ^ (-1022) <= 2 ^ (-1021) * Js.double 0.95
  /\ 2 ^ (-1022) <= 2 ^ (-1021) * Js.double 1.05
  /\ 0 < 2 ^ (-1021)
  /\ 0 < Js.double 0.95 /\ 0 < Js.double 1.05
  /\ 0 < 2 ^ (-53) /\ 2 ^ (-53) < 1.
Proof.
  repeat split;
    first [ apply Qle_bool_iff; vm_compute; reflexivity
          | apply JsFacts.Qltb_lt; vm_compute; reflexivity ].
Qed.

(** A size of at least [2^-1021] multiplied by [0.95] changes by a
    factor between [shrinkLow] and [shrinkHigh]. *)
Lemma shrinkStep s :
  2 ^ (-1021) <= s ->
  s * shrinkLow <= Js.double (s * Js.double 0.95)
  /\ Js.double (s * Js.double 0.95) <= s * shrinkHigh.
Proof.
  intros Hs.
  destruct literal_factors as (A1 & A2 & _ & _ & A3 & _ & A4 & Hc & _ & U0 & U1).
  set (c := Js.double 0.95) in *. set (u := 2 ^ (-53)) in *.
  set (m := 2 ^ (-1021)) in *. set (m' := 2 ^ (-1022)) in *.
  assert (Hm : m' <= s * c) by (clearbody c u m m'; nra).
  destruct (JsFacts.double_error (s * c) Hm) as [L U].
  fold u in L, U. set (d := Js.double (s * c)) in *.
  clearbody c u m m' d. split; nra.
Qed.

Lemma growStep s :
  2 ^ (-1021) <= s ->
  s * growLow <= Js.double (s * Js.double 1.05)
  /\ Js.double (s * Js.double 1.05) <= s * growHigh.
Proof.
  intros Hs.
  destruct literal_factors as (_ & _ & A1 & A2 & _ & A3 & A4 & _ & Hc & U0 & U1).
  set (c := Js.double 1.05) in *. set (u := 2 ^ (-53)) in *.
  set (m := 2 ^ (-1021)) in *. set (m' := 2 ^ (-1022)) in *.
  assert (Hm : m' <= s * c) by (clearbody c u m m'; nra).
  destruct (JsFacts.double_error (s * c) Hm) as [L U].
  fold u in L, U. set (d := Js.double (s * c)) in *.
  clearbody c u m m' d. split; nra.
Qed.

Lemma scaled_lower m s k :
  0 < m -> 0 < k -> k <= 1 -> m <= s * k -> m <= s.
Proof.
  intros Hm Hk Hk1 H.
  destruct (Qlt_le_dec 0 s) as [Hs | Hs]; nra.
Qed.

Section Bounds.
Variable probe : Probe.

Lemma shrinkLoop_queries n st :
  (queries (shrinkLoop probe n st) <= queries st + n + 1)%nat.
Proof.
  revert st. induction n as [| n IH]; intros st; simpl;
    destruct (probe (queries st) (size (frame st))); simpl; try lia.
  etransitivity; [apply IH |]. simpl. lia.
Qed.

Lemma growLoop_queries maxSize n st :
  (queries (growLoop probe maxSize n st) <= queries st + 2 * n + 1)%nat.
Proof.
  revert st. induction n as [| n IH]; intros st; simpl.
  - destruct (_ && _)%bool; simpl; lia.
  - destruct (_ && _)%bool; simpl; [| lia].
    destruct (probe _ _); simpl; [lia |].
    etransitivity; [apply IH |]. simpl. lia.
Qed.

Lemma shrinkLoop_size n st :
  2 ^ (-1021) <= size (frame st) * Js.pow shrinkLow n ->
  size (frame st) * Js.pow shrinkLow n
    <= size (frame (shrinkLoop probe n st))
  /\ size (frame (shrinkLoop probe n st)) <= size (frame st).
Proof.
  destruct step_factors as (F1 & F2 & F3 & _).
  destruct literal_factors as (_ & _ & _ & _ & _ & _ & P & _).
  revert st. induction n as [| n IH]; intros st Hlow.
  - simpl. destruct (probe _ _); simpl; rewrite JsFacts.pow_0; lra.
  - pose proof (JsFacts.pow_S shrinkLow n) as HS.
    pose proof (JsFacts.pow_pos shrinkLow n F1) as Hp.
    pose proof (JsFacts.pow_le_one shrinkLow n F1 F2) as Hle.
    rewrite HS in Hlow.
    set (s := size (frame st)) in *.
    assert (Hs : 2 ^ (-1021) <= s).
    { apply (scaled_lower _ s (shrinkLow * Js.pow shrinkLow n));
        [exact P | nra | nra | exact Hlow]. }
    destruct (shrinkStep s Hs) as [L U].
    cbn [shrinkLoop overflowed]. fold s.
    destruct (probe (queries st) s); cbn [frame size].
    + specialize (IH (scaleSize 0.95
                        {| frame := frame st; queries := S (queries st) |})).
      cbn [scaleSize frame size set_size] in IH. fold s in IH.
      set (s' := Js.double (s * Js.double 0.95)) in *.
      destruct IH as [IH1 IH2].
      { set (m := 2 ^ (-1021)) in *. clearbody m s'.
        set (w := Js.pow shrinkLow n) in *. clearbody w. nra. }
      rewrite HS.
      set (r := size (frame (shrinkLoop probe n _))) in *.
      set (m := 2 ^ (-1021)) in *. clearbody m s' r.
      set (w := Js.pow shrinkLow n) in *. clearbody w.
      split; nra.
    + fold s. rewrite HS.
      set (m := 2 ^ (-1021)) in *. clearbody m.
      set (w := Js.pow shrinkLow n) in *. clearbody w s.
      assert (shrinkLow * w <= 1) by nra.
      split; nra.
Qed.

Lemma growLoop_size maxSize n st :
  2 ^ (-1021) <= size (frame st) ->
  size (frame st) < maxSize * growHigh ->
  size (frame st) * (growLow * shrinkLow)
    <= size (frame (growLoop probe maxSize n st))
  /\ size (frame (growLoop probe maxSize n st)) < maxSize * growHigh.
Proof.
  destruct step_factors as (F1 & F2 & F3 & G1 & G2 & GS & GL0 & GL & F4).
  destruct literal_factors as (_ & _ & _ & _ & _ & _ & P & _).
  revert st. induction n as [| n IH]; intros st Hlow Hlt;
    set (s := size (frame st)) in *.
  - cbn [growLoop overflowed]. fold s.
    destruct (_ && _)%bool; cbn [frame size]; fold s;
      set (m := 2 ^ (-1021)) in *; clearbody m s; split; nra.
  - cbn [growLoop overflowed]. cbn [frame size]. fold s.
    destruct (negb _ && Js.Qltb _ _)%bool eqn:Hc; cbn [frame size]; fold s.
    2:{ set (m := 2 ^ (-1021)) in *. clearbody m s. split; nra. }
    apply andb_true_iff in Hc. destruct Hc as [_ Hc].
    apply JsFacts.Qltb_lt in Hc.
    destruct (growStep s Hlow) as [L U].
    cbn [scaleSize frame size set_size queries]. fold s.
    set (s' := Js.double (s * Js.double 1.05)) in *.
    assert (Hs' : 2 ^ (-1021) <= s').
    { set (m := 2 ^ (-1021)) in *. clearbody m s s'. nra. }
    destruct (probe _ s'); cbn [frame size set_size].
    + destruct (shrinkStep s' Hs') as [L2 U2].
      cbn [scaleSize frame size set_size].
      set (s2 := Js.double (s' * Js.double 0.95)) in *.
      set (m := 2 ^ (-1021)) in *. clearbody m s s' s2.
      assert (s * growLow * shrinkLow <= s' * shrinkLow) by nra.
      assert (s' * shrinkHigh <= s * growHigh * shrinkHigh) by nra.
      assert (s * (growHigh * shrinkHigh) <= s) by nra.
      split; nra.
    + match goal with
      | |- context [growLoop probe maxSize n ?x] => specialize (IH x)
      end.
      cbn [frame size set_size] in IH.
      destruct IH as [IH1 IH2]; [exact Hs' | |].
      { set (m := 2 ^ (-1021)) in *. clearbody m s s'. nra. }
      set (r := size (frame (growLoop probe maxSize n _))) in *.
      set (m := 2 ^ (-1021)) in *. clearbody m s s' r.
      assert (s <= s') by nra.
      set (g := growLow * shrinkLow) in *. clearbody g.
      split; nra.
Qed.

End Bounds.

(** C2 (as stated) fails: a frame that never overflows, fitted with
    the default sizes 12 and 72, is probed 42 times, more than
    [2 * maxIterations = 40]. *)
Lemma autoFit_probe_calls_exceed_two_caps :
  let run := autoFitText (thresholdProbe 1000) (plainFrame 30 "Title")
               {| baseFontSize := None; maxFontSize := None |} in
  queries run = 42%nat /\ ~ (queries run <= 2 * maxIterations)%nat.
Proof.
  assert (E : queries
                (autoFitText (thresholdProbe 1000) (plainFrame 30 "Title")
                   {| baseFontSize := None; maxFontSize := None |})
              = 42%nat) by (vm_compute; reflexivity).
  cbv zeta. rewrite E. split; [reflexivity |]. unfold maxIterations. lia.
Qed.

(** C2 (amended): for every behaviour of the overflow probe the
    solver returns, having read the probe at most
    [3 * maxIterations + 2 = 62] times: at most [maxIterations + 1]
    reads in the shrink phase and [2 * maxIterations + 1] in the grow
    phase. *)
Theorem autoFit_probe_calls_bounded :
  forall (probe : Probe) (textFrame : TextFrame)
         (params : AdjustmentParams),
  exists result : Fitting,
    autoFitText probe textFrame params = result
    /\ (queries result <= 3 * maxIterations + 2)%nat.
Proof.
  intros probe textFrame params. eexists. split; [reflexivity |].
  unfold autoFitText.
  etransitivity; [apply growLoop_queries |].
  set (st0 := {| frame := _; queries := 0 |}).
  pose proof (shrinkLoop_queries probe maxIterations st0) as H.
  change (queries st0) with 0%nat in H.
  set (q := queries (shrinkLoop probe maxIterations st0)) in *.
  clearbody q. unfold maxIterations in *. lia.
Qed.

(** A probe that reaches 62 reads: overflow on the first 21 reads, none
    afterwards. *)
Example autoFit_probe_calls_tight :
  queries (autoFitText (firstReadsProbe 21) (plainFrame 30 "Title")
             {| baseFontSize := Some 12; maxFontSize := Some 72 |})
  = (3 * maxIterations + 2)%nat.
Proof. vm_compute. reflexivity. Qed.

(** C1 (as stated) fails at both ends of the interval.  Above: with
    sizes 12 and 12.5 and a frame that never overflows, the solver
    leaves more than 12.6.  Below: with a frame that overflows above
    4.4pt, the shrink phase stops after twenty steps, one growth step
    overflows and its corrective step leaves a size below
    [12 * 0.95^20]. *)
Lemma autoFit_size_leaves_interval :
  (let run := autoFitText (thresholdProbe 1000) (plainFrame 30 "Title")
                {| baseFontSize := Some 12; maxFontSize := Some 12.5 |} in
   12.6 <= size (frame run) /\ ~ size (frame run) <= 12.5)
  /\
  (let run := autoFitText (thresholdProbe 4.4) (plainFrame 30 "Title")
                {| baseFontSize := Some 12; maxFontSize := Some 72 |} in
   ~ 12 * Js.pow 0.95 maxIterations <= size (frame run)).
Proof.
  split; cbv zeta.
  - split.
    + apply Qle_bool_iff. vm_compute. reflexivity.
    + intros H. apply Qle_bool_iff in H. vm_compute in H. discriminate.
  - intros H. apply Qle_bool_iff in H. vm_compute in H. discriminate.
Qed.

(** C1 (amended): for sizes [baseFontSize <= maxFontSize] between
    [2^-1000] and [2^1000] and every behaviour of the overflow probe,
    the size the solver leaves on the frame is at least
    [baseFontSize * 0.95^maxIterations * (1.05 * 0.95)] less the
    relative amount [2^-47] that the rounding of twenty-two products
    can take away, and below [maxFontSize * 1.05] plus the relative
    amount [2^-52]. *)
Theorem autoFit_size_bounds :
  forall (probe : Probe) (textFrame : TextFrame)
         (params : AdjustmentParams),
    let base := Js.orDouble (baseFontSize params) 12 in
    let maxSize := Js.orDouble (maxFontSize params) 72 in
    smallest <= base ->
    base <= maxSize ->
    maxSize <= largest ->
    base * Js.pow 0.95 maxIterations * (1.05 * 0.95) * (1 - 2 ^ (-47))
      <= size (frame (autoFitText probe textFrame params))
    /\ size (frame (autoFitText probe textFrame params))
       < maxSize * 1.05 * (1 + 2 ^ (-52)).
Proof.
  intros probe textFrame params base maxSize Hlow Hle _.
  unfold autoFitText. fold base. fold maxSize.
  destruct step_factors as (F1 & F2 & F3 & G1 & G2 & GS & GL0 & GL & F4).
  assert (K1 : 2 ^ (-1021) <= smallest * Js.pow shrinkLow maxIterations).
  { apply Qle_bool_iff. vm_compute. reflexivity. }
  assert (K2 : Js.pow 0.95 maxIterations * (1.05 * 0.95) * (1 - 2 ^ (-47))
               <= Js.pow shrinkLow maxIterations * (growLow * shrinkLow)).
  { apply Qle_bool_iff. vm_compute. reflexivity. }
  assert (K3 : 0 < smallest /\ 0 < 2 ^ (-1021)).
  { split; apply JsFacts.Qltb_lt; vm_compute; reflexivity. }
  destruct K3 as [K3 K4].
  pose proof (JsFacts.pow_pos shrinkLow maxIterations F1) as Hp.
  set (st0 := {| frame := set_size base textFrame; queries := 0 |}).
  change (growHigh) with (1.05 * (1 + slack)) in *.
  destruct (shrinkLoop_size probe maxIterations st0) as [L U].
  { cbn [st0 frame size set_size].
    set (m := 2 ^ (-1021)) in *. set (w := Js.pow shrinkLow maxIterations) in *.
    clearbody m w. nra. }
  cbn [st0 frame size set_size] in L, U. fold st0 in L, U.
  set (s1 := size (frame (shrinkLoop probe maxIterations st0))) in *.
  destruct (growLoop_size probe maxSize maxIterations
              (shrinkLoop probe maxIterations st0)) as [L2 U2].
  { fold s1. set (m := 2 ^ (-1021)) in *.
    set (w := Js.pow shrinkLow maxIterations) in *. clearbody m w s1. nra. }
  { fold s1. unfold growHigh, slack. set (d := 2 ^ (-52)).
    assert (0 < d) by (apply JsFacts.pow2_pos). clearbody d s1. nra. }
  fold s1 in L2.
  set (r := size (frame (growLoop probe maxSize maxIterations _))) in *.
  split.
  - set (w := Js.pow shrinkLow maxIterations) in *.
    set (k := Js.pow 0.95 maxIterations * (1.05 * 0.95) * (1 - 2 ^ (-47)))
      in *.
    set (g := growLow * shrinkLow) in *.
    apply Qle_trans with (base * (w * g)).
    + assert (E : base * Js.pow 0.95 maxIterations * (1.05 * 0.95)
                  * (1 - 2 ^ (-47)) == base * k) by (unfold k; ring).
      rewrite E. clearbody k w g. nra.
    + clearbody w g s1 r. nra.
  - unfold growHigh, slack in U2.
    assert (E : maxSize * 1.05 * (1 + 2 ^ (-52))
                == maxSize * (1.05 * (1 + 2 ^ (-52)))) by ring.
    rewrite E. exact U2.
Qed.

Lemma autoFit_size_bounds_witness :
  let params := {| baseFontSize := Some 12; maxFontSize := Some 72 |} in
  let run := autoFitText (thresholdProbe 20) (plainFrame 30 "Title")
               params in
  Js.orDouble (Some 12) 12 * Js.pow 0.95 maxIterations * (1.05 * 0.95)
    * (1 - 2 ^ (-47))
    <= size (frame run)
  /\ size (frame run) < Js.orDouble (Some 72) 72 * 1.05 * (1 + 2 ^ (-52)).
Proof.
  apply (autoFit_size_bounds (thresholdProbe 20) (plainFrame 30 "Title")
           {| baseFontSize := Some 12; maxFontSize := Some 72 |}).
  - vm_compute. discriminate.
  - vm_compute. discriminate.
  - vm_compute. discriminate.
Defined.

End AutoFitFacts.

(** ** Lists, sets and sorting *)

Module ListFacts.

Lemma two_members_length {A} (a b : A) (l : list A) :
  In a l -> In b l -> a <> b -> (2 <= length l)%nat.
Proof.
  intros Ha Hb Hne. destruct l as [| x [| y l]]; simpl in *; try lia.
  destruct Ha as [Ha | []], Hb as [Hb | []]. congruence.
Qed.

Lemma filter_map_length {A B} (f : A -> B) (P : B -> bool) (l : list A) :
  length (List.filter P (map f l))
  = length (List.filter (fun a => P (f a)) l).
Proof.
  induction l as [| a l IH]; simpl; [reflexivity |].
  destruct (P (f a)); simpl; congruence.
Qed.

Section Dedupe.
Context {A : Type} (eqb : A -> A -> bool).
Hypothesis eqb_spec : forall a b, eqb a b = true <-> a = b.

Let step (seen : list A) (x : A) : list A :=
  if existsb (eqb x) seen then seen else seen ++ [x].

Lemma existsb_eqb_In x l : existsb (eqb x) l = true <-> In x l.
Proof.
  rewrite existsb_exists. split.
  - intros (y & Hy & E). apply eqb_spec in E. now subst.
  - intros H. exists x. split; [exact H | now apply eqb_spec].
Qed.

Lemma dedupe_from_In xs : forall acc x,
  In x (fold_left step xs acc) <-> In x acc \/ In x xs.
Proof.
  induction xs as [| y xs IH]; intros acc x; simpl; [tauto |].
  rewrite IH. unfold step.
  destruct (existsb (eqb y) acc) eqn:E.
  - apply existsb_eqb_In in E. intuition (subst; auto).
  - rewrite in_app_iff. simpl. intuition (subst; auto).
Qed.

Lemma dedupe_from_NoDup xs : forall acc,
  List.NoDup acc -> List.NoDup (fold_left step xs acc).
Proof.
  induction xs as [| y xs IH]; intros acc Hnd; simpl; [exact Hnd |].
  apply IH. unfold step.
  destruct (existsb (eqb y) acc) eqn:E; [exact Hnd |].
  assert (Hy : ~ In y acc).
  { intros Hin. apply existsb_eqb_In in Hin. congruence. }
  clear E. induction Hnd as [| z acc Hz Hnd IHnd]; simpl.
  - constructor; [intros [] | constructor].
  - constructor.
    + rewrite in_app_iff. simpl. intros [H | [H | []]]; [auto |].
      subst. apply Hy. now left.
    + apply IHnd. intros H. apply Hy. now right.
Qed.

Lemma dedupe_In xs x : In x (Analyzer.dedupe eqb xs) <-> In x xs.
Proof.
  unfold Analyzer.dedupe. fold step. rewrite dedupe_from_In.
  simpl. tauto.
Qed.

Lemma dedupe_NoDup xs : List.NoDup (Analyzer.dedupe eqb xs).
Proof.
  unfold Analyzer.dedupe. fold step. apply dedupe_from_NoDup. constructor.
Qed.

End Dedupe.

(** Sorting with a comparator [(a, b) => key(b) - key(a)]. *)
Section KeySort.
Context {A : Type} (key : A -> Q).

Let cmp (a b : A) : Q := key b - key a.

Lemma sortInsert_Permutation x l :
  Permutation (Js.sortInsert cmp x l) (x :: l).
Proof.
  induction l as [| y l IH]; simpl; [reflexivity |].
  destruct (Js.Qgtb (cmp x y) 0); [| reflexivity].
  rewrite IH. apply perm_swap.
Qed.

Lemma sort_Permutation l : Permutation (Js.sort cmp l) l.
Proof.
  induction l as [| x l IH]; simpl; [reflexivity |].
  rewrite sortInsert_Permutation. now rewrite IH.
Qed.

Lemma sortInsert_Sorted x l :
  Sorted (Js.descending key) l -> Sorted (Js.descending key) (Js.sortInsert cmp x l).
Proof.
  induction 1 as [| y l Hs IH Hd]; simpl.
  - repeat constructor.
  - destruct (Js.Qgtb (cmp x y) 0) eqn:E.
    + apply JsFacts.Qltb_lt in E. unfold cmp in E.
      constructor; [exact IH |].
      destruct Hd as [| z l Hz]; simpl.
      * constructor. unfold Js.descending. lra.
      * destruct (Js.Qgtb (cmp x z) 0); constructor;
          unfold Js.descending in *; lra.
    + apply JsFacts.Qltb_ge in E. unfold cmp in E.
      constructor; [now constructor |].
      constructor. unfold Js.descending. lra.
Qed.

Lemma sort_Sorted l : Sorted (Js.descending key) (Js.sort cmp l).
Proof.
  induction l as [| x l IH]; simpl; [constructor |].
  now apply sortInsert_Sorted.
Qed.


Global Instance descending_Transitive : Transitive (Js.descending key).
Proof. intros a b c. unfold Js.descending. lra. Qed.

End KeySort.

End ListFacts.

(** ** FontPairingAnalyzer *)

Module FontPairingFacts.
Import Analyzer.

Lemma String_eqb_spec a b : String.eqb a b = true <-> a = b.
Proof. apply String.eqb_eq. Qed.

Lemma Category_eqb_spec a b : Category_eqb a b = true <-> a = b.
Proof. destruct a, b; simpl; split; congruence. Qed.

(** C3 (as stated) fails.  Two elements of the same script family give
    no result; two different script families alone give a warning;
    two elements of one script family beside a serif one give
    success. *)
Lemma fontPairing_script_elements_without_error :
  (let elements := [plainElement "Brush Script" 24 1.4;
                    plainElement "Brush Script" 12 1.4] in
   (2 <= Spec.scriptCount elements)%nat
   /\ analyzeFontPairing elements = None)
  /\
  (let elements := [plainElement "Brush Script" 24 1.4;
                    plainElement "Lucida Handwriting" 12 1.4] in
   (2 <= Spec.scriptCount elements)%nat
   /\ resultTypeOf (analyzeFontPairing elements) = Some Warning)
  /\
  (let elements := [plainElement "Brush Script" 24 1.4;
                    plainElement "Brush Script" 18 1.4;
                    plainElement "Times" 12 1.4] in
   (2 <= Spec.scriptCount elements)%nat
   /\ resultTypeOf (analyzeFontPairing elements) = Some Success).
Proof.
  repeat split; try (vm_compute; reflexivity); vm_compute; lia.
Qed.

(** C3 (amended): when the families of the elements include two
    different families that map to [script] and a family that maps to
    another category, the result has type [Error]. *)
Theorem fontPairing_two_script_families_error :
  forall (elements : list TextElement) (f1 f2 g : string),
    In f1 (map family elements) ->
    In f2 (map family elements) ->
    f1 <> f2 ->
    categorizeFontFamily f1 = script ->
    categorizeFontFamily f2 = script ->
    In g (map family elements) ->
    categorizeFontFamily g <> script ->
    resultTypeOf (analyzeFontPairing elements) = Some Error.
Proof.
  intros elements f1 f2 g H1 H2 Hne C1 C2 Hg Cg.
  unfold analyzeFontPairing.
  set (fonts := dedupe String.eqb (map family elements)).
  assert (F1 : In f1 fonts)
    by (apply (ListFacts.dedupe_In _ String_eqb_spec), H1).
  assert (F2 : In f2 fonts)
    by (apply (ListFacts.dedupe_In _ String_eqb_spec), H2).
  assert (Fg : In g fonts)
    by (apply (ListFacts.dedupe_In _ String_eqb_spec), Hg).
  assert (Fnd : List.NoDup fonts)
    by apply (ListFacts.dedupe_NoDup _ String_eqb_spec).
  assert (Hlen : Nat.ltb (length fonts) 2 = false).
  { apply Nat.ltb_ge.
    apply (ListFacts.two_members_length f1 f2); assumption. }
  rewrite Hlen.
  set (categories := map categorizeFontFamily fonts).
  assert (Cs : In script categories).
  { rewrite <- C1. now apply in_map. }
  assert (Co : In (categorizeFontFamily g) categories) by now apply in_map.
  assert (Hu : Nat.eqb (length (dedupe Category_eqb categories)) 1 = false).
  { apply Nat.eqb_neq.
    enough (2 <= length (dedupe Category_eqb categories))%nat by lia.
    eapply (ListFacts.two_members_length script (categorizeFontFamily g)).
    - now apply (ListFacts.dedupe_In _ Category_eqb_spec).
    - now apply (ListFacts.dedupe_In _ Category_eqb_spec).
    - congruence. }
  rewrite Hu.
  assert (Hin : existsb (Category_eqb script) categories = true).
  { apply (ListFacts.existsb_eqb_In _ Category_eqb_spec), Cs. }
  rewrite Hin.
  assert (Hcount :
            Nat.ltb 1 (length (List.filter (fun c => Category_eqb c script)
                                           categories)) = true).
  { apply Nat.ltb_lt. unfold categories.
    rewrite ListFacts.filter_map_length.
    enough (2 <= length
                   (List.filter
                      (fun a => Category_eqb (categorizeFontFamily a) script)
                      fonts))%nat by lia.
    apply (ListFacts.two_members_length f1 f2).
    - apply filter_In. split; [exact F1 |]. rewrite C1. reflexivity.
    - apply filter_In. split; [exact F2 |]. rewrite C2. reflexivity.
    - exact Hne. }
  rewrite Hcount. reflexivity.
Qed.

Lemma fontPairing_two_script_families_error_witness :
  resultTypeOf
    (analyzeFontPairing [plainElement "Brush Script" 24 1.4;
                         plainElement "Lucida Handwriting" 18 1.4;
                         plainElement "Times" 12 1.4])
  = Some Error.
Proof.
  apply (fontPairing_two_script_families_error
           [plainElement "Brush Script" 24 1.4;
            plainElement "Lucida Handwriting" 18 1.4;
            plainElement "Times" 12 1.4]
           "Brush Script" "Lucida Handwriting" "Times").
  - simpl. auto.
  - simpl. auto.
  - discriminate.
  - vm_compute. reflexivity.
  - vm_compute. reflexivity.
  - simpl. auto.
  - vm_compute. discriminate.
Defined.

End FontPairingFacts.

(** ** ReadabilityAnalyzer *)

Module ReadabilityFacts.
Import Analyzer.

Section Checks.
Variable numberToString : Q -> string.

Lemma push_issues i s f : length (issues (push i s f)) = S (length (issues f)).
Proof. unfold push. simpl. rewrite length_app. simpl. lia. Qed.

Lemma push_fixes i s f : length (fixes (push i s f)) = S (length (fixes f)).
Proof. unfold push. simpl. rewrite length_app. simpl. lia. Qed.

(** Every check adds as many suggestions as issues: one of each when
    its condition holds, none otherwise. *)
Ltac count_pushes :=
  repeat match goal with
         | |- context [if ?b then _ else _] => destruct b
         end;
  rewrite ?push_issues, ?push_fixes; cbn [Nat.b2n orb andb negb];
  split; lia.

Lemma checkFontSize_count e f :
  length (issues (checkFontSize numberToString e f))
  = (length (issues f) + Nat.b2n (Spec.fontSizeFails e))%nat
  /\ length (fixes (checkFontSize numberToString e f))
     = (length (fixes f) + Nat.b2n (Spec.fontSizeFails e))%nat.
Proof.
  unfold checkFontSize, Spec.fontSizeFails, minFontSize, maxFontSize.
  count_pushes.
Qed.

Lemma checkLineHeight_count e f :
  length (issues (checkLineHeight numberToString e f))
  = (length (issues f) + Nat.b2n (Spec.lineHeightFails e))%nat
  /\ length (fixes (checkLineHeight numberToString e f))
     = (length (fixes f) + Nat.b2n (Spec.lineHeightFails e))%nat.
Proof.
  unfold checkLineHeight, Spec.lineHeightFails, minLineHeight,
    maxLineHeight.
  count_pushes.
Qed.

Lemma checkLineLength_count e f :
  length (issues (checkLineLength numberToString e f))
  = (length (issues f) + Nat.b2n (Spec.nonzeroLineLengthFails e))%nat
  /\ length (fixes (checkLineLength numberToString e f))
     = (length (fixes f) + Nat.b2n (Spec.nonzeroLineLengthFails e))%nat.
Proof.
  unfold checkLineLength, Spec.nonzeroLineLengthFails, minLineLength,
    maxLineLength.
  destruct (lineLength e) as [n |]; [| simpl; split; lia].
  rewrite Z.gtb_ltb. count_pushes.
Qed.

Lemma zero_spacing_passes c :
  Js.Qis_zero c = true -> Js.Qgtb (Qabs c) 0.1 = false.
Proof.
  intros H. apply JsFacts.Qis_zero_true in H.
  apply JsFacts.Qltb_ge. rewrite H. vm_compute. discriminate.
Qed.

Lemma checkCharacterSpacing_count e f :
  length (issues (checkCharacterSpacing e f))
  = (length (issues f) + Nat.b2n (Spec.spacingFails e))%nat
  /\ length (fixes (checkCharacterSpacing e f))
     = (length (fixes f) + Nat.b2n (Spec.spacingFails e))%nat.
Proof.
  unfold checkCharacterSpacing, Spec.spacingFails, Js.truthyNum.
  destruct (characterSpacing e) as [c |]; [| simpl; split; lia].
  destruct (Js.Qis_zero c) eqn:E.
  - rewrite (zero_spacing_passes c E). simpl. split; lia.
  - count_pushes.
Qed.

Lemma elementFindings_count e :
  length (issues (elementFindings numberToString e)) = Spec.failedChecks e
  /\ length (fixes (elementFindings numberToString e))
     = Spec.failedChecks e.
Proof.
  unfold elementFindings, Spec.failedChecks.
  set (f0 := {| issues := []; fixes := [] |}).
  destruct (checkFontSize_count e f0) as [A1 A2].
  destruct (checkLineHeight_count e (checkFontSize numberToString e f0))
    as [B1 B2].
  destruct (checkLineLength_count e
              (checkLineHeight numberToString e
                 (checkFontSize numberToString e f0))) as [C1 C2].
  destruct (checkCharacterSpacing_count e
              (checkLineLength numberToString e
                 (checkLineHeight numberToString e
                    (checkFontSize numberToString e f0)))) as [D1 D2].
  simpl in A1, A2. lia.
Qed.


End Checks.



End ReadabilityFacts.

(** ** HierarchyAnalyzer *)

Module HierarchyFacts.
Import Analyzer.



(** The result depends only on whether some ratio of the sorted sizes
    is poor. *)
Lemma analyzeHierarchy_type elements :
  (2 <= length elements)%nat ->
  resultTypeOf (analyzeHierarchy elements)
  = Some (if existsb poorRatio
               (ratiosOf (Js.sort (fun a b => b - a)
                            (map fontSize elements)))
          then Info else Success).
Proof.
  intros Hlen. unfold analyzeHierarchy.
  apply Nat.ltb_ge in Hlen. rewrite Hlen.
  generalize (ratiosOf (Js.sort (fun a b => b - a) (map fontSize elements))).
  intros ratios. induction ratios as [| r ratios IH]; simpl; [reflexivity |].
  destruct (poorRatio r); simpl; [reflexivity | exact IH].
Qed.



(** The ratio is the rounded quotient of the doubles: for the sizes
    11.4 and 3.8, whose quotient as rationals is 3, it is the double
    next above 3 and the result is [Info]; for 2.3 and 2, whose
    quotient as rationals is 1.15, it is the double 1.15 and the result
    is [Success]. *)
Example hierarchy_rounded_ratios :
  11.4 / 3.8 == 3
  /\ ratiosOf [11.4; 3.8] = [Js.Fin (3 + 2 ^ (-51))]
  /\ resultTypeOf
       (analyzeHierarchy [plainElement "Georgia" 11.4 1.4;
                          plainElement "Georgia" 3.8 1.4])
     = Some Info
  /\ resultTypeOf
       (analyzeHierarchy [plainElement "Georgia" 2.3 1.4;
                          plainElement "Georgia" 2 1.4])
     = Some Success.
Proof. repeat split; vm_compute; reflexivity. Qed.


End HierarchyFacts.

(** ** FormatRuleEngine *)

Module FormatFacts.
Import Format.

Lemma truthyStr_Some s : s <> EmptyString -> Js.truthyStr (Some s) = Some s.
Proof. destruct s; [congruence | reflexivity]. Qed.

Lemma truthyNum_nonzero q : ~ q == 0 -> Js.truthyNum (Some q) = Some q.
Proof. intros H. apply JsFacts.truthyNum_Some. auto. Qed.

Lemma getByName_installed fonts f :
  In f fonts -> getByName fonts f = Some f.
Proof.
  unfold getByName. induction fonts as [| g fonts IH]; simpl; [tauto |].
  intros [-> | H].
  - now rewrite String.eqb_refl.
  - destruct (String.eqb f g) eqn:E; [| auto].
    apply String.eqb_eq in E. now subst.
Qed.

Lemma getByName_missing fonts f :
  ~ In f fonts -> getByName fonts f = None.
Proof.
  unfold getByName. induction fonts as [| g fonts IH]; simpl; [auto |].
  intros H. destruct (String.eqb f g) eqn:E.
  - apply String.eqb_eq in E. subst. tauto.
  - apply IH. tauto.
Qed.

Ltac by_cases :=
  unfold applyFormattingRule, applyColor, applyCharacterSpacing,
    applyLineHeight, applyFontSize, applyFontFamily;
  repeat match goal with
         | |- context [match ?x with _ => _ end] => destruct x
         end;
  reflexivity.

Section Fields.
Variable fonts : list string.
Variables (t : TextFrame) (rule : FormatRule).

Lemma apply_textFont :
  textFont (applyFormattingRule fonts t rule)
  = textFont (applyFontFamily fonts rule t).
Proof. by_cases. Qed.

Lemma apply_size :
  size (applyFormattingRule fonts t rule)
  = match Js.truthyNum (fontSize rule) with
    | Some s => s
    | None => size t
    end.
Proof. by_cases. Qed.

Lemma apply_leading :
  leading (applyFormattingRule fonts t rule)
  = match Js.truthyNum (lineHeight rule) with
    | Some lh => Js.mul (Js.toNumber (fontSize rule)) (Js.Fin lh)
    | None => leading t
    end.
Proof. by_cases. Qed.

Lemma apply_tracking :
  tracking (applyFormattingRule fonts t rule)
  = match Js.truthyNum (characterSpacing rule) with
    | Some c => c
    | None => tracking t
    end.
Proof. by_cases. Qed.

Lemma apply_fillColor :
  fillColor (applyFormattingRule fonts t rule)
  = match Js.truthyStr (color rule) with
    | Some c => parseColor c
    | None => fillColor t
    end.
Proof. by_cases. Qed.

Lemma apply_untouched :
  contents (applyFormattingRule fonts t rule) = contents t
  /\ autoKernType (applyFormattingRule fonts t rule) = autoKernType t
  /\ justification (applyFormattingRule fonts t rule) = justification t.
Proof. repeat split; by_cases. Qed.

End Fields.

(** The rule of the scenario:
    [{selector: "heading", headingThreshold: 18, fontSize: 24}]. *)
Lemma headingRule_matches t :
  shouldApplyRule t
    {| name := None; selector := "heading"; headingThreshold := Some 18;
       text := None; fontFamily := None; fontSize := Some 24;
       lineHeight := None; characterSpacing := None; color := None |}
  = Js.Qgtb (size t) 18.
Proof. reflexivity. Qed.

(** C4 (as stated) fails.  A rule that defines [fontFamily] with a
    name the host cannot resolve applies and leaves the font as it
    was; a rule that defines [characterSpacing] as [0] applies and
    leaves the tracking as it was. *)
Lemma formatting_defined_property_not_written :
  (let rule := {| name := None; selector := "all";
                  headingThreshold := None; text := None;
                  fontFamily := Some "Futura"; fontSize := None;
                  lineHeight := None; characterSpacing := None;
                  color := None |} in
   let t := plainFrame 20 "Title" in
   shouldApplyRule t rule = true
   /\ textFont (applyFormattingRule ["Helvetica"; "Times"] t rule)
      = "Helvetica")
  /\
  (let rule := {| name := None; selector := "all";
                  headingThreshold := None; text := None;
                  fontFamily := None; fontSize := None;
                  lineHeight := None; characterSpacing := Some 0;
                  color := None |} in
   let t := set_tracking 50 (plainFrame 20 "Title") in
   shouldApplyRule t rule = true
   /\ tracking (applyFormattingRule ["Helvetica"; "Times"] t rule) = 50).
Proof. repeat split. Qed.

(** C4 (amended): applying a rule writes each property that the rule
    defines with a value other than [0] or the empty string --
    [fontSize], the leading as [rule.fontSize * rule.lineHeight], the
    tracking, the fill colour parsed from [color] -- and writes the
    font when, in addition, the host resolves the name; a font name
    the host cannot resolve leaves the font as it was.  A property not
    defined on the rule is unchanged, as are the contents and the other
    attributes.  The rule [{selector: "heading", headingThreshold: 18,
    fontSize: 24}] sets the size of a frame of size 20 to 24 and
    changes nothing else; a frame of size 16 is left untouched and the
    rule is not recorded as applied. *)
Theorem formatting_writes_defined_properties :
  forall (fonts : list string) (t : TextFrame) (rule : FormatRule),
    let t' := applyFormattingRule fonts t rule in
    (forall f, fontFamily rule = Some f -> f <> EmptyString ->
               In f fonts -> textFont t' = f)
    /\ (forall f, fontFamily rule = Some f -> ~ In f fonts ->
                  textFont t' = textFont t)
    /\ (fontFamily rule = None -> textFont t' = textFont t)
    /\ (forall s, fontSize rule = Some s -> ~ s == 0 -> size t' = s)
    /\ (fontSize rule = None -> size t' = size t)
    /\ (forall lh, lineHeight rule = Some lh -> ~ lh == 0 ->
                   leading t'
                   = Js.mul (Js.toNumber (fontSize rule)) (Js.Fin lh))
    /\ (lineHeight rule = None -> leading t' = leading t)
    /\ (forall c, characterSpacing rule = Some c -> ~ c == 0 ->
                  tracking t' = c)
    /\ (characterSpacing rule = None -> tracking t' = tracking t)
    /\ (forall c, color rule = Some c -> c <> EmptyString ->
                  fillColor t' = parseColor c)
    /\ (color rule = None -> fillColor t' = fillColor t)
    /\ contents t' = contents t
    /\ autoKernType t' = autoKernType t
    /\ justification t' = justification t
    /\ (let heading :=
          {| name := None; selector := "heading";
             headingThreshold := Some 18; text := None;
             fontFamily := None; fontSize := Some 24;
             lineHeight := None; characterSpacing := None;
             color := None |} in
        (size t == 20 ->
         formatFrame fonts [heading] t = (set_size 24 t, ["rule_0"]))
        /\ (size t == 16 -> formatFrame fonts [heading] t = (t, []))).
Proof.
  intros fonts t rule t'. subst t'.
  rewrite apply_textFont, apply_size, apply_leading, apply_tracking,
    apply_fillColor.
  destruct (apply_untouched fonts t rule) as (Hc & Hk & Hj).
  unfold applyFontFamily.
  repeat match goal with |- _ /\ _ => split end;
    try assumption.
  - intros f E Hf Hin. rewrite E, (truthyStr_Some f Hf).
    now rewrite (getByName_installed fonts f Hin).
  - intros f E Hin. rewrite E.
    destruct (Js.truthyStr (Some f)) as [g |] eqn:Eg; [| reflexivity].
    assert (g = f) by (destruct f; simpl in Eg; congruence). subst g.
    now rewrite (getByName_missing fonts f Hin).
  - intros E. now rewrite E.
  - intros s E Hs. now rewrite E, (truthyNum_nonzero s Hs).
  - intros E. now rewrite E.
  - intros lh E Hlh. now rewrite E, (truthyNum_nonzero lh Hlh).
  - intros E. now rewrite E.
  - intros c E Hc'. now rewrite E, (truthyNum_nonzero c Hc').
  - intros E. now rewrite E.
  - intros c E Hc'. now rewrite E, (truthyStr_Some c Hc').
  - intros E. now rewrite E.
  - intros E. unfold formatFrame, formatLoop.
    rewrite headingRule_matches.
    assert (G : Js.Qgtb (size t) 18 = true)
      by (apply JsFacts.Qltb_lt; rewrite E; reflexivity).
    rewrite G. reflexivity.
  - intros E. unfold formatFrame, formatLoop.
    rewrite headingRule_matches.
    assert (G : Js.Qgtb (size t) 18 = false)
      by (apply JsFacts.Qltb_ge; rewrite E; discriminate).
    rewrite G. reflexivity.
Qed.

Lemma formatting_writes_defined_properties_witness :
  let heading :=
    {| name := None; selector := "heading"; headingThreshold := Some 18;
       text := None; fontFamily := None; fontSize := Some 24;
       lineHeight := None; characterSpacing := None; color := None |} in
  size (applyFormattingRule ["Helvetica"] (plainFrame 20 "Title") heading)
  = 24
  /\ formatFrame ["Helvetica"] [heading] (plainFrame 20 "Title")
     = (set_size 24 (plainFrame 20 "Title"), ["rule_0"])
  /\ formatFrame ["Helvetica"] [heading] (plainFrame 16 "Body")
     = (plainFrame 16 "Body", []).
Proof.
  intros heading.
  pose proof (formatting_writes_defined_properties
                ["Helvetica"] (plainFrame 20 "Title") heading) as H20.
  pose proof (formatting_writes_defined_properties
                ["Helvetica"] (plainFrame 16 "Body") heading) as H16.
  cbv zeta in H20, H16.
  destruct H20 as (_ & _ & _ & Hsize & _ & _ & _ & _ & _ & _ & _ & _ & _
                   & _ & Hs20 & _).
  destruct H16 as (_ & _ & _ & _ & _ & _ & _ & _ & _ & _ & _ & _ & _
                   & _ & _ & Hs16).
  split; [| split].
  - apply (Hsize 24); [reflexivity | discriminate].
  - apply Hs20. reflexivity.
  - apply Hs16. reflexivity.
Defined.

(** C10 (as stated) fails for a rule that defines [lineHeight] as [0]
    and no [fontSize]: the guard [if (rule.lineHeight)] is false for
    [0], so no leading is written and the frame keeps the leading it
    had, which is not [NaN]. *)
Lemma formatting_zero_lineHeight_writes_no_leading :
  let rule := {| name := None; selector := "all";
                 headingThreshold := None; text := None;
                 fontFamily := None; fontSize := None;
                 lineHeight := Some 0; characterSpacing := None;
                 color := None |} in
  let t := plainFrame 20 "Title" in
  lineHeight rule <> None
  /\ fontSize rule = None
  /\ leading (applyFormattingRule ["Helvetica"] t rule) = leading t
  /\ leading (applyFormattingRule ["Helvetica"] t rule) <> Js.NaN.
Proof. cbv zeta. repeat split; discriminate. Qed.

(** C10 (amended): a rule that defines [lineHeight] with a value other
    than [0] and no [fontSize] applies by writing [NaN] as the leading,
    whatever the current size of the frame; with a [fontSize] the
    leading written is the product of the two. *)
Theorem formatting_lineHeight_without_fontSize_is_NaN :
  forall (fonts : list string) (t : TextFrame) (rule : FormatRule)
         (lh : Q),
    lineHeight rule = Some lh ->
    ~ lh == 0 ->
    (fontSize rule = None ->
     leading (applyFormattingRule fonts t rule) = Js.NaN
     /\ leading (applyFormattingRule fonts t rule)
        <> Js.Fin (size t * lh))
    /\ (forall s, fontSize rule = Some s ->
                  leading (applyFormattingRule fonts t rule)
                  = Js.Fin (s * lh)).
Proof.
  intros fonts t rule lh E Hlh. rewrite apply_leading.
  rewrite E, (truthyNum_nonzero lh Hlh). split.
  - intros En. rewrite En. simpl. split; [reflexivity | discriminate].
  - intros s Es. rewrite Es. reflexivity.
Qed.

Lemma formatting_lineHeight_without_fontSize_is_NaN_witness :
  let rule := {| name := None; selector := "all";
                 headingThreshold := None; text := None;
                 fontFamily := None; fontSize := None;
                 lineHeight := Some 1.4; characterSpacing := None;
                 color := None |} in
  leading (applyFormattingRule ["Helvetica"] (plainFrame 20 "Title") rule)
  = Js.NaN.
Proof.
  intros rule.
  apply (formatting_lineHeight_without_fontSize_is_NaN
           ["Helvetica"] (plainFrame 20 "Title") rule 1.4).
  - reflexivity.
  - discriminate.
  - reflexivity.
Defined.

End FormatFacts.

(** ** Invalid configuration *)

Module ScriptFacts.
Import Format Script Spec.

Lemma unknown_selector_never_applies t rule :
  ~ knownSelector (selector rule) -> shouldApplyRule t rule = false.
Proof.
  unfold knownSelector, shouldApplyRule. intros H.
  repeat match goal with
         | |- context [String.eqb ?a ?b] =>
             destruct (String.eqb_spec a b); [tauto |]
         end.
  reflexivity.
Qed.

Section Frames.
Variable fonts : list string.

(** The frame produced by the rule loop does not depend on the rule
    counter or on the identifiers recorded so far. *)
Lemma formatLoop_frame rules : forall j j' t applied applied',
  fst (formatLoop fonts j rules t applied)
  = fst (formatLoop fonts j' rules t applied').
Proof.
  induction rules as [| r rules IH]; intros j j' t a a'; simpl;
    [reflexivity |].
  destruct (shouldApplyRule t r); apply IH.
Qed.

Lemma formatLoop_skips_unknown before rule after :
  ~ knownSelector (selector rule) ->
  forall j t applied,
    fst (formatLoop fonts j (before ++ rule :: after) t applied)
    = fst (formatLoop fonts j (before ++ after) t applied).
Proof.
  intros Hu. induction before as [| r before IH]; intros j t a; simpl.
  - rewrite (unknown_selector_never_applies t rule Hu).
    apply formatLoop_frame.
  - destruct (shouldApplyRule t r); apply IH.
Qed.

Lemma batchLoop_skips_unknown before rule after :
  ~ knownSelector (selector rule) ->
  forall i frames,
    fst (batchLoop fonts (before ++ rule :: after) i frames)
    = fst (batchLoop fonts (before ++ after) i frames).
Proof.
  intros Hu i frames. revert i.
  induction frames as [| t frames IH]; intros i; simpl; [reflexivity |].
  pose proof (formatLoop_skips_unknown before rule after Hu 0 t []) as E.
  unfold formatFrame.
  destruct (formatLoop fonts 0 (before ++ rule :: after) t [])
    as [t1 a1].
  destruct (formatLoop fonts 0 (before ++ after) t []) as [t2 a2].
  simpl in E. subst t2. specialize (IH (S i)).
  destruct (batchLoop fonts (before ++ rule :: after) (S i) frames)
    as [f1 r1].
  destruct (batchLoop fonts (before ++ after) (S i) frames) as [f2 r2].
  simpl in *. now subst.
Qed.

Lemma batchLoop_length rules : forall i frames,
  length (snd (batchLoop fonts rules i frames)) = length frames.
Proof.
  intros i frames. revert i.
  induction frames as [| t frames IH]; intros i; simpl; [reflexivity |].
  destruct (formatFrame fonts rules t) as [t1 a1].
  specialize (IH (S i)).
  destruct (batchLoop fonts rules (S i) frames) as [f1 r1].
  simpl in *. now rewrite IH.
Qed.

End Frames.

(** C9 (as stated) fails for selectors: a rule list whose only rule
    has the selector [subheading] is processed without any failure;
    the response reports success, with no rule applied and the frame
    unchanged. *)
Lemma batchFormat_unknown_selector_reports_success :
  let rule := {| name := None; selector := "subheading";
                 headingThreshold := None; text := None;
                 fontFamily := None; fontSize := Some 18;
                 lineHeight := Some 1.3; characterSpacing := None;
                 color := None |} in
  let app := {| activeDocument :=
                  Some {| selection := [];
                          textFrames := [plainFrame 20 "Title"] |};
                textFonts := ["Helvetica"] |} in
  ~ Spec.knownSelector (selector rule)
  /\ batchFormatText app [rule]
     = (app, Formatted 1 [ {| index := 0; appliedRules := [] |} ]).
Proof.
  split; [| reflexivity].
  unfold knownSelector. simpl. intros [H | [H | [H | H]]]; discriminate.
Qed.

(** C9 (amended): with a document open, a fix type other than
    kerning, hierarchy, readability and alignment makes
    [applyTypographyFix] return a failure whose text names that fix
    type, and leaves the document as it was.  A rule whose selector is
    not one of all, heading, body and contains raises no failure: it
    applies to no frame, and [batchFormatText] reports success with
    every frame formatted as by the rule list without that rule. *)
Theorem invalid_configuration_outcomes :
  forall (app : App) (doc : Document),
    activeDocument app = Some doc ->
    (forall (fixType : string) (parameters : Fix.Parameters),
        ~ knownFixType fixType ->
        applyTypographyFix app fixType parameters
        = (app,
           Failure (String.append "Error: Unknown fix type: " fixType)))
    /\ (forall (before after : list FormatRule) (rule : FormatRule),
           ~ knownSelector (selector rule) ->
           (forall t, shouldApplyRule t rule = false)
           /\ exists results,
               snd (batchFormatText app (before ++ rule :: after))
               = Formatted (length (textFrames doc)) results
               /\ fst (batchFormatText app (before ++ rule :: after))
                  = fst (batchFormatText app (before ++ after))).
Proof.
  intros app doc Hdoc. split.
  - intros fixType parameters Hu.
    unfold applyTypographyFix, dispatchFix. rewrite Hdoc.
    unfold knownFixType in Hu.
    repeat match goal with
           | |- context [String.eqb ?a ?b] =>
               destruct (String.eqb_spec a b); [tauto |]
           end.
    reflexivity.
  - intros before after rule Hu. split.
    + intros t. now apply unknown_selector_never_applies.
    + unfold batchFormatText. rewrite Hdoc.
      pose proof (batchLoop_skips_unknown (textFonts app) before rule after
                    Hu 0 (textFrames doc)) as E.
      pose proof (batchLoop_length (textFonts app) (before ++ rule :: after)
                    0 (textFrames doc)) as L.
      destruct (batchLoop (textFonts app) (before ++ rule :: after) 0
                  (textFrames doc)) as [f1 r1].
      destruct (batchLoop (textFonts app) (before ++ after) 0
                  (textFrames doc)) as [f2 r2].
      simpl in *. subst f2. exists r1. rewrite L. split; reflexivity.
Qed.

Lemma invalid_configuration_outcomes_witness :
  let app := {| activeDocument :=
                  Some {| selection := [SelectedFrame 0];
                          textFrames := [plainFrame 20 "Title"] |};
                textFonts := ["Helvetica"] |} in
  applyTypographyFix app "spacing" Fix.noParameters
  = (app, Failure "Error: Unknown fix type: spacing").
Proof.
  intros app.
  apply (invalid_configuration_outcomes app
           {| selection := [SelectedFrame 0];
              textFrames := [plainFrame 20 "Title"] |}).
  - reflexivity.
  - unfold knownFixType. intros [H | [H | [H | H]]]; discriminate.
Defined.

End ScriptFacts.

(** ** HierarchyScaler *)

Module ScalerFacts.
Import Fix.

Abbreviation bySize := (Js.descending entrySize).

Lemma sub_swap (n j : nat) : (n - j - 1 = n - 1 - j)%nat.
Proof. lia. Qed.

Lemma set_size_same t : set_size (size t) t = t.
Proof. now destruct t. Qed.

Lemma alter_same {A} (f : A -> A) (l : list A) i x :
  l !! i = Some x -> f x = x -> alter f i l = l.
Proof.
  intros Hl Hf. apply list_eq. intros j. rewrite list_lookup_alter.
  destruct (decide (i = j)) as [<- |]; [| reflexivity].
  rewrite Hl. simpl. now rewrite Hf.
Qed.

(** *** The entries collected from a selection *)

Lemma collectFrames_In sel : forall i e,
  In e (collectFrames i sel) ->
  exists k t, index e = (i + k)%nat
              /\ sel !! k = Some (TextFrameItem t)
              /\ entrySize e = size t.
Proof.
  induction sel as [| item sel IH]; intros i e H; simpl in H; [tauto |].
  destruct item as [t | ty].
  - destruct H as [<- | H].
    + exists 0%nat, t. simpl. repeat split. lia.
    + destruct (IH _ _ H) as (k & u & Hi & Hk & Hs).
      exists (S k), u. repeat split; [lia | exact Hk | exact Hs].
  - destruct (IH _ _ H) as (k & u & Hi & Hk & Hs).
    exists (S k), u. repeat split; [lia | exact Hk | exact Hs].
Qed.

Lemma collectFrames_member sel : forall i k t,
  sel !! k = Some (TextFrameItem t) ->
  In {| entrySize := size t; index := i + k |} (collectFrames i sel).
Proof.
  induction sel as [| item sel IH]; intros i k t H; [discriminate |].
  destruct k as [| k]; simpl in H.
  - injection H as ->. simpl. left. f_equal. lia.
  - specialize (IH (S i) k t H).
    replace (S i + k)%nat with (i + S k)%nat in IH by lia.
    destruct item; simpl; auto.
Qed.

Lemma collectFrames_NoDup sel : forall i,
  List.NoDup (map index (collectFrames i sel)).
Proof.
  induction sel as [| item sel IH]; intros i; simpl; [constructor |].
  destruct item as [t | ty]; [| apply IH].
  simpl. constructor; [| apply IH].
  intros H. apply in_map_iff in H. destruct H as (e & He & Hin).
  destruct (collectFrames_In _ _ _ Hin) as (k & u & Hi & _).
  lia.
Qed.

Lemma sortedFrames_Permutation sel :
  Permutation (sortedFrames sel) (collectFrames 0 sel).
Proof. apply (ListFacts.sort_Permutation entrySize). Qed.

Lemma sortedFrames_Sorted sel : Sorted bySize (sortedFrames sel).
Proof. apply (ListFacts.sort_Sorted entrySize). Qed.

Lemma sortedFrames_NoDup sel : List.NoDup (map index (sortedFrames sel)).
Proof.
  eapply Permutation_NoDup; [| apply (collectFrames_NoDup sel 0)].
  apply Permutation_map. symmetry. apply sortedFrames_Permutation.
Qed.

(** Every ranked entry stands for a text frame of the selection. *)
Lemma sortedFrames_frame sel k item :
  sortedFrames sel !! k = Some item ->
  exists t, sel !! index item = Some (TextFrameItem t)
            /\ size t = entrySize item.
Proof.
  intros H.
  assert (Hin : In item (collectFrames 0 sel)).
  { eapply Permutation_in; [apply sortedFrames_Permutation |].
    apply list_elem_of_In, list_elem_of_lookup. eauto. }
  destruct (collectFrames_In _ _ _ Hin) as (j & t & Hi & Hj & Hs).
  simpl in Hi. subst j. eauto.
Qed.

(** Every text frame of the selection is ranked. *)
Lemma frame_ranked sel i t :
  sel !! i = Some (TextFrameItem t) ->
  exists k, sortedFrames sel !! k
            = Some {| entrySize := size t; index := i |}.
Proof.
  intros H. apply (collectFrames_member sel 0) in H. simpl in H.
  apply list_elem_of_lookup, list_elem_of_In.
  eapply Permutation_in; [symmetry; apply sortedFrames_Permutation |].
  exact H.
Qed.

(** *** The scaling loop *)

Section Loop.
Variable parameters : Parameters.
Variable n : nat.

Lemma scaleLoop_results textFrames : forall j sel results,
  snd (scaleLoop parameters n j textFrames sel results)
  = results
      ++ imap (fun k item =>
                 HierarchyResult (index item) (entrySize item)
                   (newSizeAt parameters n (j + k) item))
              textFrames.
Proof.
  induction textFrames as [| item rest IH]; intros j sel results; simpl.
  - now rewrite app_nil_r.
  - rewrite IH, <- app_assoc. simpl. rewrite Nat.add_0_r.
    do 2 f_equal. apply imap_ext. intros k x _. simpl.
    do 2 f_equal. lia.
Qed.

Lemma scaleLoop_length textFrames : forall j sel results,
  length (fst (scaleLoop parameters n j textFrames sel results))
  = length sel.
Proof.
  induction textFrames as [| item rest IH]; intros j sel results; simpl;
    [reflexivity |].
  rewrite IH. apply length_alter.
Qed.

Lemma scaleLoop_other textFrames : forall j sel results i,
  ~ In i (map index textFrames) ->
  fst (scaleLoop parameters n j textFrames sel results) !! i = sel !! i.
Proof.
  induction textFrames as [| item rest IH]; intros j sel results i Hi;
    simpl; [reflexivity |].
  simpl in Hi. rewrite IH by tauto.
  apply list_lookup_alter_ne. tauto.
Qed.

Lemma scaleLoop_lookup textFrames : forall j sel results k item,
  List.NoDup (map index textFrames) ->
  textFrames !! k = Some item ->
  fst (scaleLoop parameters n j textFrames sel results) !! index item
  = setItemSize (newSizeAt parameters n (j + k) item)
      <$> sel !! index item.
Proof.
  induction textFrames as [| head rest IH];
    intros j sel results k item Hnd Hk; [discriminate |].
  simpl in Hnd. inversion Hnd as [| ? ? Hhead Hrest]; subst.
  destruct k as [| k]; simpl in Hk; simpl.
  - injection Hk as ->. rewrite scaleLoop_other by exact Hhead.
    rewrite list_lookup_alter, Nat.add_0_r.
    destruct (decide (index item = index item)); [reflexivity | tauto].
  - rewrite (IH (S j) _ _ k item Hrest Hk).
    replace (S j + k)%nat with (j + S k)%nat by lia.
    f_equal. apply list_lookup_alter_ne.
    intros E. apply Hhead. rewrite E. apply in_map.
    apply list_elem_of_In, list_elem_of_lookup. eauto.
Qed.

(** A loop that assigns every frame the size it already has changes
    nothing. *)
Lemma scaleLoop_identity textFrames : forall j sel results,
  (forall k item, textFrames !! k = Some item ->
                  newSizeAt parameters n (j + k) item = entrySize item
                  /\ exists t, sel !! index item = Some (TextFrameItem t)
                               /\ size t = entrySize item) ->
  fst (scaleLoop parameters n j textFrames sel results) = sel.
Proof.
  induction textFrames as [| head rest IH]; intros j sel results H;
    simpl; [reflexivity |].
  destruct (H 0%nat head eq_refl) as (Hn & t & Ht & Hs).
  rewrite Nat.add_0_r in Hn. rewrite Hn.
  rewrite (alter_same _ sel (index head) (TextFrameItem t) Ht)
    by (simpl; now rewrite <- Hs, set_size_same).
  apply IH. intros k item Hk.
  replace (S j + k)%nat with (j + S k)%nat by lia.
  apply (H (S k) item Hk).
Qed.

End Loop.

(** *** One application of the scaler *)

Lemma applyHierarchyFix_results sel parameters :
  snd (applyHierarchyFix sel parameters)
  = imap (fun k item =>
            HierarchyResult (index item) (entrySize item)
              (newSizeAt parameters (length (sortedFrames sel)) k item))
         (sortedFrames sel).
Proof.
  unfold applyHierarchyFix. rewrite scaleLoop_results. reflexivity.
Qed.

Lemma applyHierarchyFix_lookup sel parameters k item :
  sortedFrames sel !! k = Some item ->
  fst (applyHierarchyFix sel parameters) !! index item
  = setItemSize (newSizeAt parameters (length (sortedFrames sel)) k item)
      <$> sel !! index item.
Proof.
  intros H. unfold applyHierarchyFix.
  apply (scaleLoop_lookup parameters _ (sortedFrames sel) 0 sel [] k item);
    [apply sortedFrames_NoDup | exact H].
Qed.

Lemma applyHierarchyFix_other sel parameters i :
  ~ In i (map index (sortedFrames sel)) ->
  fst (applyHierarchyFix sel parameters) !! i = sel !! i.
Proof. intros H. unfold applyHierarchyFix. now apply scaleLoop_other. Qed.

Lemma applyHierarchyFix_length sel parameters :
  length (fst (applyHierarchyFix sel parameters)) = length sel.
Proof. unfold applyHierarchyFix. apply scaleLoop_length. Qed.

Lemma newSizeAt_supplied parameters n k item b :
  baseSize parameters = Some b ->
  ~ b == 0 ->
  newSizeAt parameters n k item
  = b * Js.pow (baseRatio parameters) (n - 1 - k).
Proof.
  intros E Hb. unfold newSizeAt.
  rewrite E, (proj2 (JsFacts.truthyNum_Some (Some b) b)) by auto.
  now rewrite sub_swap.
Qed.

Lemma newSizeAt_absent parameters n k item :
  baseSize parameters = None ->
  newSizeAt parameters n k item = entrySize item.
Proof. intros E. unfold newSizeAt. now rewrite E. Qed.

(** C5 (as stated) fails for a supplied [baseSize] of [0] and for a
    supplied [scaleRatio] of [0].  The claim gives every frame the size
    [0 * ratio^(n-1-k) = 0] in the first case and
    [baseSize * 0^(n-1-k)] in the second, that is [0, 0, 12] for three
    frames and base size 12; the code tests both parameters for
    truthiness, so it leaves every size as it is in the first case and
    uses the ratio 1.25 in the second. *)
Lemma hierarchy_scaler_zero_parameters_ignored :
  let selection := [ TextFrameItem (plainFrame 24 "Heading");
                     TextFrameItem (plainFrame 18 "Subheading");
                     TextFrameItem (plainFrame 12 "Body") ] in
  let supplied r b :=
    {| opticalKerning := false; kerningPairs := false;
       tracking := None; scaleRatio := Some r;
       baseSize := Some b; lineHeight := None;
       characterSpacing := None; alignment := None |} in
  (fst (applyHierarchyFix selection (supplied 1.25 0)) = selection
   /\ ~ Forall2 Qeq
         (Spec.frameSizes (fst (applyHierarchyFix selection (supplied 1.25 0))))
         [0 * Js.pow 1.25 2; 0 * Js.pow 1.25 1; 0 * Js.pow 1.25 0])
  /\ (Forall2 Qeq
        (Spec.frameSizes (fst (applyHierarchyFix selection (supplied 0 12))))
        [18.75; 15; 12]
      /\ ~ Forall2 Qeq
            (Spec.frameSizes (fst (applyHierarchyFix selection (supplied 0 12))))
            [12 * Js.pow 0 2; 12 * Js.pow 0 1; 12 * Js.pow 0 0]).
Proof.
  cbv zeta. split; split.
  - reflexivity.
  - intros H. inversion H as [| ? ? ? ? H1 _]. vm_compute in H1.
    discriminate.
  - vm_compute. repeat constructor.
  - intros H. inversion H as [| ? ? ? ? H1 _]. vm_compute in H1.
    discriminate.
Qed.

(** C5 (amended): rank the text frames by [sortedFrames], a
    rearrangement of the
    frames of the selection in descending order of their current size.
    When [baseSize] is supplied (and is not [0]), the frame ranked [k]
    among [n] is given the size [baseSize * ratio^(n-1-k)], both in the
    result list and on the frame itself, where the ratio is
    [scaleRatio], or 1.25 when that is absent; when [baseSize] is
    absent the selection is unchanged and every result repeats the old
    size.  For sizes [24, 18, 12], ratio 1.25 and base size 12 the new
    sizes are [18.75, 15, 12]. *)
Theorem hierarchy_scaler_assigns_geometric_sizes :
  forall (selection : list PageItem) (parameters : Parameters),
    let ranked := sortedFrames selection in
    let n := length ranked in
    let out := applyHierarchyFix selection parameters in
    Permutation ranked (collectFrames 0 selection)
    /\ Sorted (Js.descending entrySize) ranked
    /\ (forall b : Q,
           baseSize parameters = Some b ->
           ~ b == 0 ->
           forall (k : nat) (item : Entry),
             ranked !! k = Some item ->
             snd out !! k
             = Some (HierarchyResult (index item) (entrySize item)
                       (b * Js.pow (baseRatio parameters) (n - 1 - k)))
             /\ exists t,
                 selection !! index item = Some (TextFrameItem t)
                 /\ size t = entrySize item
                 /\ fst out !! index item
                    = Some (TextFrameItem
                              (set_size
                                 (b * Js.pow (baseRatio parameters)
                                        (n - 1 - k)) t)))
    /\ (scaleRatio parameters = None -> baseRatio parameters = 1.25)
    /\ (forall r : Q, scaleRatio parameters = Some r -> ~ r == 0 ->
                      baseRatio parameters = r)
    /\ (baseSize parameters = None ->
        fst out = selection
        /\ forall (k : nat) (item : Entry),
            ranked !! k = Some item ->
            snd out !! k
            = Some (HierarchyResult (index item) (entrySize item)
                      (entrySize item)))
    /\ (let scenario :=
          applyHierarchyFix
            [ TextFrameItem (plainFrame 24 "Heading");
              TextFrameItem (plainFrame 18 "Subheading");
              TextFrameItem (plainFrame 12 "Body") ]
            {| opticalKerning := false; kerningPairs := false;
               tracking := None; scaleRatio := Some 1.25;
               baseSize := Some 12; lineHeight := None;
               characterSpacing := None; alignment := None |} in
        Forall2 Qeq (Spec.frameSizes (fst scenario)) [18.75; 15; 12]).
Proof.
  intros selection parameters ranked n out.
  split; [apply sortedFrames_Permutation |].
  split; [apply sortedFrames_Sorted |].
  split; [| split; [| split; [| split]]].
  - intros b Eb Hb k item Hk. split.
    + unfold out. rewrite applyHierarchyFix_results, list_lookup_imap.
      fold ranked. rewrite Hk. simpl.
      now rewrite (newSizeAt_supplied parameters _ k item b Eb Hb).
    + destruct (sortedFrames_frame selection k item Hk) as (t & Ht & Hs).
      exists t. repeat split; [exact Ht | exact Hs |].
      unfold out. rewrite (applyHierarchyFix_lookup _ _ k item Hk), Ht.
      simpl. now rewrite (newSizeAt_supplied parameters _ k item b Eb Hb).
  - intros E. unfold baseRatio. now rewrite E.
  - intros r E Hr. unfold baseRatio. rewrite E.
    now apply JsFacts.orNum_Some.
  - intros E. split.
    + unfold out, applyHierarchyFix. apply scaleLoop_identity.
      intros k item Hk. split; [now apply newSizeAt_absent |].
      apply (sortedFrames_frame selection k item Hk).
    + intros k item Hk. unfold out.
      rewrite applyHierarchyFix_results, list_lookup_imap.
      fold ranked. rewrite Hk. simpl.
      now rewrite (newSizeAt_absent parameters _ k item E).
  - vm_compute. repeat constructor.
Qed.

Lemma hierarchy_scaler_assigns_geometric_sizes_witness :
  let selection := [ TextFrameItem (plainFrame 24 "Heading");
                     TextFrameItem (plainFrame 18 "Subheading");
                     TextFrameItem (plainFrame 12 "Body") ] in
  let parameters := {| opticalKerning := false; kerningPairs := false;
                       tracking := None; scaleRatio := Some 1.25;
                       baseSize := Some 12; lineHeight := None;
                       characterSpacing := None; alignment := None |} in
  snd (applyHierarchyFix selection parameters) !! 0%nat
  = Some (HierarchyResult 0 24 (12 * Js.pow 1.25 2)).
Proof.
  intros selection parameters.
  destruct (hierarchy_scaler_assigns_geometric_sizes selection parameters)
    as (_ & _ & H & _).
  destruct (H 12 eq_refl ltac:(discriminate) 0%nat
              {| entrySize := 24; index := 0 |} eq_refl) as [Hres _].
  exact Hres.
Defined.

(** *** A second application *)

Lemma imap_index (f : nat -> Entry -> Entry) (l : list Entry) :
  (forall k e, index (f k e) = index e) ->
  map index (imap f l) = map index l.
Proof.
  revert f. induction l as [| e l IH]; intros f Hf; [reflexivity |].
  rewrite imap_cons. simpl. rewrite Hf. f_equal.
  apply IH. intros k x. apply Hf.
Qed.

Lemma sameSize_refl x : Spec.sameSize x x.
Proof. destruct x; simpl; reflexivity. Qed.

Section SecondPass.
Variables (selection : list PageItem) (parameters : Parameters) (b : Q).
Hypothesis base_supplied : baseSize parameters = Some b.
Hypothesis base_positive : 0 < b.
Hypothesis ratio_at_least_one : 1 <= baseRatio parameters.

Let ranked := sortedFrames selection.
Let n := length ranked.
Let once := fst (applyHierarchyFix selection parameters).
Let target := Spec.rescaled parameters b selection.

Lemma base_nonzero : ~ b == 0.
Proof. lra. Qed.

Lemma target_lookup k x :
  target !! k = Some x <->
  exists e, ranked !! k = Some e
            /\ x = {| entrySize :=
                        b * Js.pow (baseRatio parameters) (n - 1 - k);
                      index := index e |}.
Proof.
  unfold target, Spec.rescaled. rewrite list_lookup_imap. fold ranked n.
  destruct (ranked !! k) as [e |]; simpl.
  - split.
    + intros [= <-]. eauto.
    + intros (e' & [= <-] & ->). reflexivity.
  - split; [discriminate | intros (e' & H & _); discriminate].
Qed.

Lemma once_lookup k e :
  ranked !! k = Some e ->
  exists t,
    selection !! index e = Some (TextFrameItem t)
    /\ once !! index e
       = Some (TextFrameItem
                 (set_size (b * Js.pow (baseRatio parameters) (n - 1 - k))
                           t)).
Proof.
  intros Hk.
  destruct (sortedFrames_frame selection k e Hk) as (t & Ht & _).
  exists t. split; [exact Ht |].
  unfold once. rewrite (applyHierarchyFix_lookup _ _ k e Hk), Ht. simpl.
  now rewrite (newSizeAt_supplied parameters _ k e b base_supplied
                 base_nonzero).
Qed.

Lemma target_indices : map index target = map index ranked.
Proof. apply imap_index. reflexivity. Qed.

Lemma target_length : length target = n.
Proof. unfold target, Spec.rescaled. apply length_imap. Qed.

(** The frames of the selection after one application are the ranked
    entries with their assigned sizes. *)
Lemma target_Permutation : Permutation target (collectFrames 0 once).
Proof.
  apply NoDup_Permutation.
  - apply NoDup_ListNoDup, (NoDup_map_inv index).
    rewrite target_indices. apply sortedFrames_NoDup.
  - apply NoDup_ListNoDup, (NoDup_map_inv index), collectFrames_NoDup.
  - intros x. rewrite !list_elem_of_In. split.
    + intros Hx. apply list_elem_of_In, list_elem_of_lookup in Hx.
      destruct Hx as (k & Hk). apply target_lookup in Hk.
      destruct Hk as (e & He & ->).
      destruct (once_lookup k e He) as (t & _ & Ho).
      apply (collectFrames_member once 0) in Ho. exact Ho.
    + intros Hx.
      destruct (collectFrames_In _ _ _ Hx) as (i & u & Hi & Hu & Hs).
      simpl in Hi. subst i.
      destruct (in_dec Nat.eq_dec (index x) (map index ranked))
        as [Hin | Hout].
      * apply in_map_iff in Hin. destruct Hin as (e & He & Hin).
        apply list_elem_of_In, list_elem_of_lookup in Hin.
        destruct Hin as (k & Hk).
        destruct (once_lookup k e Hk) as (t & _ & Ho).
        rewrite He, Hu in Ho. injection Ho as ->. simpl in Hs.
        apply list_elem_of_In, list_elem_of_lookup. exists k.
        apply target_lookup. exists e. split; [exact Hk |].
        destruct x as [xs xi]. simpl in *. now subst.
      * exfalso. apply Hout.
        unfold once in Hu. rewrite applyHierarchyFix_other in Hu by exact Hout.
        destruct (frame_ranked selection (index x) u Hu) as (k & Hk).
        apply in_map_iff. exists {| entrySize := size u; index := index x |}.
        split; [reflexivity |].
        apply list_elem_of_In, list_elem_of_lookup. eauto.
Qed.

Lemma target_Sorted_from (l : list Entry) : forall j,
  Sorted bySize
    (imap (fun k e =>
             {| entrySize :=
                  b * Js.pow (baseRatio parameters) (n - 1 - (j + k));
                index := index e |}) l).
Proof.
  induction l as [| e l IH]; intros j; [constructor |].
  rewrite imap_cons.
  assert (Hext :
            imap (compose
                    (fun k e0 =>
                       {| entrySize :=
                            b * Js.pow (baseRatio parameters)
                                  (n - 1 - (j + k));
                          index := index e0 |}) S) l
            = imap (fun k e0 =>
                      {| entrySize :=
                           b * Js.pow (baseRatio parameters)
                                 (n - 1 - (S j + k));
                         index := index e0 |}) l).
  { apply imap_ext. intros k x _. simpl. do 3 f_equal. lia. }
  rewrite Hext. constructor; [apply IH |].
  destruct l as [| e' l]; [constructor |].
  rewrite imap_cons. constructor. unfold Js.descending. simpl.
  pose proof (JsFacts.pow_le_mono (baseRatio parameters)
                (n - 1 - S (j + 0)) (n - 1 - (j + 0))
                ratio_at_least_one ltac:(lia)).
  nra.
Qed.

Lemma target_Sorted : Sorted bySize target.
Proof. apply (target_Sorted_from ranked 0). Qed.

(** The sizes assigned at given ranks alone decide the case of ratio 1
    and, by injectivity of the powers, the case of a larger ratio. *)
Lemma target_distinct x1 x2 :
  1 < baseRatio parameters ->
  In x1 target -> In x2 target ->
  entrySize x1 == entrySize x2 -> x1 = x2.
Proof.
  intros Hr H1 H2 E.
  apply list_elem_of_In, list_elem_of_lookup in H1.
  apply list_elem_of_In, list_elem_of_lookup in H2.
  destruct H1 as (k1 & H1), H2 as (k2 & H2).
  assert (L1 : (k1 < n)%nat).
  { rewrite <- target_length. eapply lookup_lt_Some, H1. }
  assert (L2 : (k2 < n)%nat).
  { rewrite <- target_length. eapply lookup_lt_Some, H2. }
  pose proof H1 as G1. pose proof H2 as G2.
  apply target_lookup in G1. apply target_lookup in G2.
  destruct G1 as (e1 & _ & ->), G2 as (e2 & _ & ->). simpl in E.
  assert (Hp : Js.pow (baseRatio parameters) (n - 1 - k1)
               == Js.pow (baseRatio parameters) (n - 1 - k2)).
  { apply (Qmult_inj_l _ _ b); [lra | exact E]. }
  apply JsFacts.pow_inj in Hp; [| exact Hr].
  assert (k1 = k2) by lia. subst k2. congruence.
Qed.

Lemma second_ranking :
  1 < baseRatio parameters -> sortedFrames once = target.
Proof.
  intros Hr.
  apply (Sorted_unique_strong bySize).
  - intros x1 x2 H1 H2 R12 R21.
    apply (target_distinct x1 x2 Hr).
    + apply list_elem_of_In in H1.
      eapply Permutation_in; [| exact H1].
      rewrite sortedFrames_Permutation. symmetry. apply target_Permutation.
    + now apply list_elem_of_In.
    + unfold Js.descending in *. lra.
  - apply sortedFrames_Sorted.
  - apply target_Sorted.
  - rewrite sortedFrames_Permutation. symmetry. apply target_Permutation.
Qed.

Lemma second_length : length (sortedFrames once) = n.
Proof.
  rewrite (Permutation_length (sortedFrames_Permutation once)).
  rewrite <- (Permutation_length target_Permutation). apply target_length.
Qed.

(** Every size assigned by the second application equals the size the
    frame already has. *)
Lemma second_assignment k e :
  sortedFrames once !! k = Some e ->
  newSizeAt parameters (length (sortedFrames once)) k e == entrySize e.
Proof.
  intros Hk. rewrite second_length.
  rewrite (newSizeAt_supplied parameters n k e b base_supplied base_nonzero).
  destruct (Qle_lt_or_eq _ _ ratio_at_least_one) as [Hr | Hr].
  - rewrite (second_ranking Hr) in Hk. apply target_lookup in Hk.
    destruct Hk as (e0 & _ & ->). reflexivity.
  - assert (Hin : In e target).
    { eapply Permutation_in.
      - symmetry. apply target_Permutation.
      - eapply Permutation_in; [apply sortedFrames_Permutation |].
        apply list_elem_of_In, list_elem_of_lookup. eauto. }
    apply list_elem_of_In, list_elem_of_lookup in Hin.
    destruct Hin as (k0 & Hk0). apply target_lookup in Hk0.
    destruct Hk0 as (e0 & _ & ->). simpl.
    rewrite !JsFacts.pow_base_one by (symmetry; exact Hr). reflexivity.
Qed.

Lemma second_sameSizes :
  Spec.sameSizes (fst (applyHierarchyFix once parameters)) once.
Proof.
  apply Forall2_same_length_lookup. split.
  - apply applyHierarchyFix_length.
  - intros i x y Hx Hy.
    destruct (in_dec Nat.eq_dec i (map index (sortedFrames once)))
      as [Hin | Hout].
    + apply in_map_iff in Hin. destruct Hin as (e & <- & Hin).
      apply list_elem_of_In, list_elem_of_lookup in Hin.
      destruct Hin as (k & Hk).
      destruct (sortedFrames_frame once k e Hk) as (t & Ht & Hs).
      rewrite (applyHierarchyFix_lookup _ _ k e Hk), Ht in Hx.
      rewrite Ht in Hy. injection Hx as <-. injection Hy as <-.
      simpl. rewrite Hs. apply (second_assignment k e Hk).
    + rewrite applyHierarchyFix_other in Hx by exact Hout.
      rewrite Hx in Hy. injection Hy as <-. apply sameSize_refl.
Qed.

End SecondPass.

(** C8 (as stated) fails: with sizes [24, 12], base size 12 and scale
    ratio 0.5 the first application leaves the sizes [6, 12]; the second
    ranks the frames the other way round and leaves [12, 6]. *)
Lemma hierarchy_scaler_shrinking_ratio_not_idempotent :
  let selection := [ TextFrameItem (plainFrame 24 "Heading");
                     TextFrameItem (plainFrame 12 "Body") ] in
  let parameters := {| opticalKerning := false; kerningPairs := false;
                       tracking := None; scaleRatio := Some 0.5;
                       baseSize := Some 12; lineHeight := None;
                       characterSpacing := None; alignment := None |} in
  let once := applyHierarchyFix selection parameters in
  let twice := applyHierarchyFix (fst once) parameters in
  Forall2 Qeq (Spec.frameSizes (fst once)) [6; 12]
  /\ Forall2 Qeq (Spec.frameSizes (fst twice)) [12; 6]
  /\ ~ Spec.sameSizes (fst twice) (fst once).
Proof.
  cbv zeta. split; [| split].
  - vm_compute. repeat constructor.
  - vm_compute. repeat constructor.
  - intros H. vm_compute in H. inversion H as [| x y l k Hxy Hrest]; subst.
    discriminate Hxy.
Qed.

(** C8 (amended): for a base size above [0] and a scale ratio of at
    least 1 (the default 1.25 included), applying the scaler again with
    the same parameters to its own output gives every text frame the
    size it already received: the selection keeps its sizes, and every
    result of the second application reports a new size equal to the
    old one. *)
Theorem hierarchy_scaler_idempotent :
  forall (selection : list PageItem) (parameters : Parameters) (b : Q),
    baseSize parameters = Some b ->
    0 < b ->
    1 <= baseRatio parameters ->
    let once := applyHierarchyFix selection parameters in
    let twice := applyHierarchyFix (fst once) parameters in
    Spec.sameSizes (fst twice) (fst once)
    /\ forall (k : nat) (result : FixResult),
        snd twice !! k = Some result ->
        exists i oldSize newSize,
          result = HierarchyResult i oldSize newSize
          /\ newSize == oldSize.
Proof.
  intros selection parameters b Eb Hb Hr once twice. split.
  - apply (second_sameSizes selection parameters b Eb Hb Hr).
  - intros k result Hk. unfold twice in Hk.
    rewrite applyHierarchyFix_results, list_lookup_imap in Hk.
    destruct (sortedFrames (fst once) !! k) as [e |] eqn:He;
      [| discriminate].
    simpl in Hk. injection Hk as <-.
    eexists _, _, _. split; [reflexivity |].
    apply (second_assignment selection parameters b Eb Hb Hr k e He).
Qed.

Lemma hierarchy_scaler_idempotent_witness :
  let selection := [ TextFrameItem (plainFrame 24 "Heading");
                     TextFrameItem (plainFrame 18 "Subheading");
                     TextFrameItem (plainFrame 12 "Body") ] in
  let parameters := {| opticalKerning := false; kerningPairs := false;
                       tracking := None; scaleRatio := None;
                       baseSize := Some 12; lineHeight := None;
                       characterSpacing := None; alignment := None |} in
  Spec.sameSizes
    (fst (applyHierarchyFix (fst (applyHierarchyFix selection parameters))
            parameters))
    (fst (applyHierarchyFix selection parameters)).
Proof.
  intros selection parameters.
  apply (hierarchy_scaler_idempotent selection parameters 12).
  - reflexivity.
  - reflexivity.
  - vm_compute. discriminate.
Defined.

End ScalerFacts.

(** ** Whole analysis and recommendations *)

Module ReportFacts.
Import Analyzer Report.

Lemma fontPairing_result_shape elements a :
  analyzeFontPairing elements = Some a ->
  Analyzer.suggestions a <> []
  /\ Analyzer.category a = "font-pairing"
  /\ Analyzer.type a <> Info.
Proof.
  unfold analyzeFontPairing.
  repeat match goal with
         | |- context [if ?b then _ else _] => destruct b
         end;
    intros [= <-]; simpl; repeat split; discriminate.
Qed.

Lemma hierarchy_result_shape elements a :
  analyzeHierarchy elements = Some a ->
  Analyzer.suggestions a <> []
  /\ Analyzer.category a = "hierarchy"
  /\ Analyzer.type a <> Error.
Proof.
  unfold analyzeHierarchy.
  repeat match goal with
         | |- context [if ?b then _ else _] => destruct b
         end;
    intros [= <-]; simpl; repeat split; discriminate.
Qed.

Section Loop.
Variable numberToString : Q -> string.

(** A property of every warning the loop can push holds of all its
    results. *)
Lemma readabilityLoop_Forall (P : AnalysisResult -> Prop) :
  (forall index e,
      Spec.failedChecks e <> 0%nat ->
      P (readabilityWarning numberToString index
           (elementFindings numberToString e))) ->
  forall elements index results,
    Forall P results ->
    Forall P (readabilityLoop numberToString index elements results).
Proof.
  intros HP elements.
  induction elements as [| e rest IH]; intros index results Hres; simpl;
    [exact Hres |].
  apply IH.
  destruct (ReadabilityFacts.elementFindings_count numberToString e)
    as [Hc _].
  rewrite Hc. destruct (Spec.failedChecks e) eqn:E; simpl; [exact Hres |].
  apply Forall_app. split; [exact Hres |].
  constructor; [| constructor]. apply HP. rewrite E. discriminate.
Qed.

Lemma readabilityLoop_length elements : forall index results,
  (length (readabilityLoop numberToString index elements results)
   <= length results + length elements)%nat.
Proof.
  induction elements as [| e rest IH]; intros index results; simpl; [lia |].
  etransitivity; [apply IH |].
  destruct (Nat.ltb 0 _); rewrite ?length_app; simpl; lia.
Qed.

Lemma readability_result_shape elements :
  Forall (fun a => Analyzer.suggestions a <> []
                   /\ Analyzer.type a = Warning
                   /\ Analyzer.category a = "readability")
         (analyzeReadability numberToString elements).
Proof.
  unfold analyzeReadability. apply readabilityLoop_Forall; [| constructor].
  intros index e He. simpl. repeat split.
  destruct (ReadabilityFacts.elementFindings_count numberToString e)
    as [_ Hf].
  intros E. rewrite E in Hf. simpl in Hf. congruence.
Qed.

End Loop.

(** X1: every result of [analyzeElements], for any input including the
    empty one, carries at least one suggestion. *)
Theorem analyzeElements_results_have_suggestions :
  forall (numberToString : Q -> string) (elements : list TextElement)
         (r : Result),
    In r (analyzeElements numberToString elements) ->
    suggestions r <> [].
Proof.
  intros nts elements r Hin. unfold analyzeElements in Hin.
  destruct elements as [| e rest].
  - destruct Hin as [<- | []]. discriminate.
  - set (els := e :: rest) in *.
    assert (Hopt : forall o acc,
               (forall a, o = Some a -> Analyzer.suggestions a <> []) ->
               In r (pushIfAny o acc) ->
               In r acc \/ suggestions r <> []).
    { intros [a |] acc Ha H; simpl in H; [| auto].
      apply in_app_iff in H. destruct H as [H | [<- | []]]; [auto |].
      right. apply Ha. reflexivity. }
    apply Hopt in Hin;
      [| intros a Ha; apply (hierarchy_result_shape els a Ha)].
    destruct Hin as [Hin | Hin]; [| exact Hin].
    apply in_app_iff in Hin. destruct Hin as [Hin | Hin].
    + apply Hopt in Hin;
        [| intros a Ha; apply (fontPairing_result_shape els a Ha)].
      destruct Hin as [[] | Hin]. exact Hin.
    + apply in_map_iff in Hin. destruct Hin as (a & <- & Ha).
      pose proof (readability_result_shape nts els) as HF.
      rewrite List.Forall_forall in HF. apply (HF a Ha).
Qed.

Lemma analyzeElements_results_have_suggestions_witness :
  suggestions
    {| type := Warning; category := None;
       message := "No text elements found to analyze";
       suggestions :=
         ["Select some text elements in Illustrator and try again"] |}
  <> [].
Proof.
  apply (analyzeElements_results_have_suggestions Notions.wholeNumberText []).
  simpl. left. reflexivity.
Defined.

Lemma isError_ofAnalysis a :
  isType Error (ofAnalysis a) = true <-> Analyzer.type a = Error.
Proof.
  unfold isType. simpl. destruct (Analyzer.type a); split; congruence.
Qed.

Lemma pushIfAny_length o acc :
  (length (pushIfAny o acc) <= length acc + 1)%nat.
Proof. destruct o; simpl; rewrite ?length_app; simpl; lia. Qed.

Lemma pushIfAny_errors o acc :
  List.filter (isType Error) (pushIfAny o acc)
  = List.filter (isType Error) acc
      ++ match o with
         | Some a => if isType Error (ofAnalysis a) then [ofAnalysis a] else []
         | None => []
         end.
Proof.
  destruct o as [a |]; simpl; [| now rewrite app_nil_r].
  rewrite List.filter_app. simpl. now destruct (isType Error (ofAnalysis a)).
Qed.

Lemma pushIfAny_Forall (P : Result -> Prop) o acc :
  Forall P acc ->
  (forall a, o = Some a -> P (ofAnalysis a)) ->
  Forall P (pushIfAny o acc).
Proof.
  intros Hacc Ho. destruct o as [a |]; simpl; [| exact Hacc].
  apply Forall_app. split; [exact Hacc |].
  constructor; [apply Ho; reflexivity | constructor].
Qed.

(** X2: [analyzeElements] returns at most two results more than there
    are elements; at most one of them is an error, and an error can only
    come from the font pairing check. *)
Theorem analyzeElements_at_most_one_error :
  forall (numberToString : Q -> string) (elements : list TextElement),
    let results := analyzeElements numberToString elements in
    (length results <= length elements + 2)%nat
    /\ (length (List.filter (isType Error) results) <= 1)%nat
    /\ Forall (fun r => isType Error r = true ->
                        category r = Some "font-pairing")
              results.
Proof.
  intros nts elements results. subst results. unfold analyzeElements.
  destruct elements as [| e rest].
  { simpl. repeat split; try lia.
    constructor; [discriminate | constructor]. }
  set (els := e :: rest).
  pose proof (readability_result_shape nts els) as HR.
  pose proof (readabilityLoop_length nts els 0 []) as HL.
  fold (analyzeReadability nts els) in HL. simpl length in HL.
  set (rd := analyzeReadability nts els) in *.
  assert (Hrd : List.filter (isType Error) (map ofAnalysis rd) = []).
  { clear HL. induction HR as [| a l (_ & Ht & _) _ IH]; [reflexivity |].
    simpl. unfold isType at 1. simpl. rewrite Ht. exact IH. }
  assert (Hrc : Forall (fun r => isType Error r = true ->
                                 category r = Some "font-pairing")
                       (map ofAnalysis rd)).
  { clear HL Hrd. induction HR as [| a l (_ & Ht & _) _ IH]; simpl;
      constructor; [| exact IH].
    unfold isType. simpl. rewrite Ht. discriminate. }
  split; [| split].
  - etransitivity; [apply pushIfAny_length |].
    rewrite length_app, length_map.
    pose proof (pushIfAny_length (analyzeFontPairing els) []) as H1.
    change (length els) with (S (length rest)).
    change (length (@nil Result)) with 0%nat in H1. lia.
  - rewrite pushIfAny_errors, List.filter_app, Hrd, app_nil_r.
    rewrite pushIfAny_errors.
    assert (Hh : match analyzeHierarchy els with
                 | Some a =>
                     if isType Error (ofAnalysis a) then [ofAnalysis a] else []
                 | None => []
                 end = []).
    { destruct (analyzeHierarchy els) as [h |] eqn:Eh; [| reflexivity].
      destruct (hierarchy_result_shape els h Eh) as (_ & _ & Hne).
      destruct (isType Error (ofAnalysis h)) eqn:E; [| reflexivity].
      apply isError_ofAnalysis in E. contradiction. }
    rewrite Hh, app_nil_r.
    destruct (analyzeFontPairing els) as [p |]; [| simpl; lia].
    destruct (isType Error (ofAnalysis p)); simpl; lia.
  - apply pushIfAny_Forall.
    + apply Forall_app. split; [| exact Hrc].
      apply pushIfAny_Forall; [constructor |].
      intros a Ha _. simpl.
      destruct (fontPairing_result_shape els a Ha) as (_ & Hc & _).
      now rewrite Hc.
    + intros a Ha E. apply isError_ofAnalysis in E.
      destruct (hierarchy_result_shape els a Ha) as (_ & _ & Hne).
      contradiction.
Qed.

(** X3: a single element whose font size lies in [9, 72], whose line
    height lies in [1.2, 1.8] (the bounds themselves included), whose
    line length is absent, zero or within [45, 75] and whose tracking
    is absent or at most 0.1 in magnitude yields no result at all, and
    the recommendations built from that are the single low-priority
    one. *)
Theorem analyzeElements_clean_single_element :
  forall (numberToString : Q -> string) (e : TextElement),
    9 <= fontSize e -> fontSize e <= 72 ->
    1.2 <= lineHeight e -> lineHeight e <= 1.8 ->
    Notions.lineLengthPasses (lineLength e) ->
    Notions.spacingPasses (characterSpacing e) ->
    analyzeElements numberToString [e] = []
    /\ map priority
         (generateRecommendations numberToString
            (analyzeElements numberToString [e]))
       = [Low].
Proof.
  intros nts e Hs1 Hs2 Hl1 Hl2 Hll Hsp.
  assert (Hclean : Spec.failedChecks e = 0%nat).
  { unfold Spec.failedChecks, Spec.fontSizeFails, Spec.lineHeightFails,
      Spec.nonzeroLineLengthFails, Spec.spacingFails, Js.Qgtb.
    rewrite (proj2 (JsFacts.Qltb_ge (fontSize e) 9) Hs1).
    rewrite (proj2 (JsFacts.Qltb_ge 72 (fontSize e)) Hs2).
    rewrite (proj2 (JsFacts.Qltb_ge (lineHeight e) 1.2) Hl1).
    rewrite (proj2 (JsFacts.Qltb_ge 1.8 (lineHeight e)) Hl2).
    unfold Notions.lineLengthPasses, Notions.spacingPasses in *.
    assert (H3 : match lineLength e with
                 | Some n => (negb (Z.eqb n 0)
                              && (Z.ltb n 45 || Z.ltb 75 n))%bool
                 | None => false
                 end = false).
    { destruct (lineLength e) as [n |]; [| reflexivity].
      destruct Hll as [-> | [H45 H75]]; [reflexivity |].
      apply andb_false_iff. right. apply orb_false_iff.
      split; apply Z.ltb_ge; lia. }
    assert (H4 : match characterSpacing e with
                 | Some c => Js.Qltb 0.1 (Qabs c)
                 | None => false
                 end = false).
    { destruct (characterSpacing e) as [c |]; [| reflexivity].
      now apply JsFacts.Qltb_ge. }
    rewrite H3, H4. reflexivity. }
  assert (Hall : analyzeElements nts [e] = []).
  { unfold analyzeElements.
    assert (Hr : analyzeReadability nts [e] = []).
    { unfold analyzeReadability. simpl.
      destruct (ReadabilityFacts.elementFindings_count nts e) as [Hc _].
      now rewrite Hc, Hclean. }
    rewrite Hr. reflexivity. }
  split; [exact Hall |]. rewrite Hall. reflexivity.
Qed.

Lemma analyzeElements_clean_single_element_witness :
  analyzeElements Notions.wholeNumberText [plainElement "Georgia" 9 1.8] = []
  /\ map priority
       (generateRecommendations Notions.wholeNumberText
          (analyzeElements Notions.wholeNumberText
             [plainElement "Georgia" 9 1.8]))
     = [Low].
Proof.
  apply (analyzeElements_clean_single_element Notions.wholeNumberText
           (plainElement "Georgia" 9 1.8)).
  - simpl. lra.
  - simpl. lra.
  - simpl. lra.
  - simpl. lra.
  - simpl. exact I.
  - simpl. exact I.
Defined.

Lemma filter_nonempty_existsb {A} (f : A -> bool) (l : list A) :
  Nat.ltb 0 (length (List.filter f l)) = existsb f l.
Proof.
  induction l as [| x l IH]; simpl; [reflexivity |].
  destruct (f x); simpl; [reflexivity | exact IH].
Qed.

Lemma filter_empty_existsb {A} (f : A -> bool) (l : list A) :
  Nat.eqb (length (List.filter f l)) 0 = negb (existsb f l).
Proof.
  induction l as [| x l IH]; simpl; [reflexivity |].
  destruct (f x); simpl; [reflexivity | exact IH].
Qed.

(** X4: [generateRecommendations] never returns an empty list and
    never more than two entries: the priorities are [High], [Medium],
    [High; Medium] or [Low]; a high-priority entry appears exactly when
    some result is an error, a medium-priority one exactly when some
    result is a warning, and the low-priority one only on its own. *)
Theorem generateRecommendations_priorities :
  forall (numberToString : Q -> string) (results : list Result),
    let priorities :=
      map priority (generateRecommendations numberToString results) in
    (priorities = [High] \/ priorities = [Medium]
     \/ priorities = [High; Medium] \/ priorities = [Low])
    /\ (In High priorities <-> existsb (isType Error) results = true)
    /\ (In Medium priorities <-> existsb (isType Warning) results = true)
    /\ (In Low priorities <->
        existsb (isType Error) results = false
        /\ existsb (isType Warning) results = false).
Proof.
  intros nts results priorities. subst priorities.
  unfold generateRecommendations.
  rewrite !filter_nonempty_existsb, !filter_empty_existsb.
  destruct (existsb (isType Error) results),
    (existsb (isType Warning) results); simpl;
    (split;
     [ first [ left; reflexivity
             | right; left; reflexivity
             | right; right; left; reflexivity
             | right; right; right; reflexivity ]
     | repeat split; intros; intuition (try discriminate; try congruence) ]).
Qed.

End ReportFacts.

(** ** FontPairingAnalyzer: the remaining rules *)

Module FontPairingRules.
Import Analyzer.

Lemma NoDup_all_same {A} (x : A) (l : list A) :
  List.NoDup l -> (forall y, In y l -> y = x) -> l = [] \/ l = [x].
Proof.
  intros Hnd Hall. destruct l as [| a [| b l]]; [auto | |].
  - right. f_equal. apply Hall. now left.
  - exfalso. inversion Hnd as [| ? ? Hnotin _]; subst.
    apply Hnotin. left.
    rewrite (Hall a), (Hall b); simpl; auto.
Qed.

Lemma filter_length_Permutation {A} (f : A -> bool) (l l' : list A) :
  Permutation l l' ->
  length (List.filter f l) = length (List.filter f l').
Proof.
  induction 1 as [| x l l' _ IH | x y l | l l' l'' _ IH1 _ IH2]; simpl.
  - reflexivity.
  - destruct (f x); simpl; congruence.
  - destruct (f x), (f y); reflexivity.
  - congruence.
Qed.

Lemma resultTypeOf_pairingType elements :
  resultTypeOf (analyzeFontPairing elements) = Notions.pairingType elements.
Proof.
  unfold analyzeFontPairing, Notions.pairingType.
  repeat match goal with
         | |- context [if ?b then _ else _] => destruct b
         end; reflexivity.
Qed.

(** X5: when all elements share one family -- in particular for an
    empty or a singleton selection -- [analyzeFontPairing] returns no
    result. *)
Theorem fontPairing_single_family_no_result :
  forall (elements : list TextElement) (f : string),
    (forall e, In e elements -> family e = f) ->
    analyzeFontPairing elements = None.
Proof.
  intros elements f Hall. unfold analyzeFontPairing.
  set (fonts := dedupe String.eqb (map family elements)).
  assert (Hshape : fonts = [] \/ fonts = [f]).
  { apply NoDup_all_same.
    - apply (ListFacts.dedupe_NoDup _ FontPairingFacts.String_eqb_spec).
    - intros y Hy. unfold fonts in Hy.
      apply (proj1 (ListFacts.dedupe_In _ FontPairingFacts.String_eqb_spec _ _)) in Hy.
      apply in_map_iff in Hy. destruct Hy as (e & <- & He). now apply Hall. }
  destruct Hshape as [-> | ->]; reflexivity.
Qed.

Lemma fontPairing_single_family_no_result_witness :
  analyzeFontPairing [plainElement "Georgia" 24 1.4;
                      plainElement "Georgia" 12 1.4] = None.
Proof.
  apply (fontPairing_single_family_no_result
           [plainElement "Georgia" 24 1.4; plainElement "Georgia" 12 1.4]
           "Georgia").
  simpl. intros e [<- | [<- | []]]; reflexivity.
Defined.

(** X6: when the elements use at least two different families and
    every family maps to the same category, the result is a warning
    whose message names that category. *)
Theorem fontPairing_one_category_warning :
  forall (elements : list TextElement) (c : Category) (f1 f2 : string),
    In f1 (map family elements) ->
    In f2 (map family elements) ->
    f1 <> f2 ->
    (forall e, In e elements -> categorizeFontFamily (family e) = c) ->
    exists a,
      analyzeFontPairing elements = Some a
      /\ Analyzer.type a = Warning
      /\ Analyzer.message a
         = Js.template
             [ "All fonts are from the same category (";
               categoryName c;
               "). Consider adding contrast with a different font category." ].
Proof.
  intros elements c f1 f2 H1 H2 Hne Hall. unfold analyzeFontPairing.
  set (fonts := dedupe String.eqb (map family elements)).
  assert (F1 : In f1 fonts)
    by (apply (ListFacts.dedupe_In _ FontPairingFacts.String_eqb_spec), H1).
  assert (F2 : In f2 fonts)
    by (apply (ListFacts.dedupe_In _ FontPairingFacts.String_eqb_spec), H2).
  assert (Hlen : Nat.ltb (length fonts) 2 = false).
  { apply Nat.ltb_ge. apply (ListFacts.two_members_length f1 f2); assumption. }
  rewrite Hlen.
  set (categories := map categorizeFontFamily fonts).
  assert (Hu : dedupe Category_eqb categories = [c]).
  { destruct (NoDup_all_same c (dedupe Category_eqb categories))
      as [E | E]; [| | | exact E].
    - apply (ListFacts.dedupe_NoDup _ FontPairingFacts.Category_eqb_spec).
    - intros y Hy. unfold categories in Hy.
      apply (proj1 (ListFacts.dedupe_In _ FontPairingFacts.Category_eqb_spec _ _)) in Hy.
      apply in_map_iff in Hy. destruct Hy as (f & <- & Hf).
      unfold fonts in Hf.
      apply (proj1 (ListFacts.dedupe_In _ FontPairingFacts.String_eqb_spec _ _)) in Hf.
      apply in_map_iff in Hf. destruct Hf as (e & <- & He). now apply Hall.
    - exfalso.
      assert (Hin : In (categorizeFontFamily f1)
                       (dedupe Category_eqb categories)).
      { apply (ListFacts.dedupe_In _ FontPairingFacts.Category_eqb_spec).
        now apply in_map. }
      rewrite E in Hin. destruct Hin. }
  rewrite Hu. simpl. eexists. repeat split.
Qed.

Lemma fontPairing_one_category_warning_witness :
  exists a,
    analyzeFontPairing [plainElement "Georgia" 24 1.4;
                        plainElement "Garamond" 12 1.4] = Some a
    /\ Analyzer.type a = Warning
    /\ Analyzer.message a
       = Js.template
           [ "All fonts are from the same category (";
             categoryName serif;
             "). Consider adding contrast with a different font category." ].
Proof.
  apply (fontPairing_one_category_warning
           [plainElement "Georgia" 24 1.4; plainElement "Garamond" 12 1.4]
           serif "Georgia" "Garamond").
  - simpl. auto.
  - simpl. auto.
  - discriminate.
  - simpl. intros e [<- | [<- | []]]; reflexivity.
Defined.

(** X7: the type of the font pairing result depends only on the set of
    families in use: two selections that use the same families, in any
    order and with any repetition, get results of the same type (or
    both none). *)
Theorem fontPairing_type_depends_on_family_set :
  forall elements1 elements2 : list TextElement,
    (forall f, In f (map family elements1) <-> In f (map family elements2)) ->
    resultTypeOf (analyzeFontPairing elements1)
    = resultTypeOf (analyzeFontPairing elements2).
Proof.
  intros l1 l2 Hsame. rewrite !resultTypeOf_pairingType. unfold Notions.pairingType.
  set (fonts1 := dedupe String.eqb (map family l1)).
  set (fonts2 := dedupe String.eqb (map family l2)).
  assert (Pf : Permutation fonts1 fonts2).
  { apply Permutation.NoDup_Permutation.
    - apply (ListFacts.dedupe_NoDup _ FontPairingFacts.String_eqb_spec).
    - apply (ListFacts.dedupe_NoDup _ FontPairingFacts.String_eqb_spec).
    - intros f. unfold fonts1, fonts2.
      rewrite !(ListFacts.dedupe_In _ FontPairingFacts.String_eqb_spec).
      apply Hsame. }
  assert (Pc : Permutation (map categorizeFontFamily fonts1)
                           (map categorizeFontFamily fonts2))
    by now apply Permutation_map.
  assert (Pu : Permutation
                 (dedupe Category_eqb (map categorizeFontFamily fonts1))
                 (dedupe Category_eqb (map categorizeFontFamily fonts2))).
  { apply Permutation.NoDup_Permutation.
    - apply (ListFacts.dedupe_NoDup _ FontPairingFacts.Category_eqb_spec).
    - apply (ListFacts.dedupe_NoDup _ FontPairingFacts.Category_eqb_spec).
    - intros c.
      rewrite !(ListFacts.dedupe_In _ FontPairingFacts.Category_eqb_spec).
      split; apply Permutation_in; [exact Pc | symmetry; exact Pc]. }
  rewrite (Permutation_length Pf), (Permutation_length Pu).
  rewrite (filter_length_Permutation _ _ _ Pc).
  assert (He : existsb (Category_eqb script)
                       (map categorizeFontFamily fonts1)
               = existsb (Category_eqb script)
                         (map categorizeFontFamily fonts2)).
  { apply eq_iff_eq_true.
    rewrite !(ListFacts.existsb_eqb_In _ FontPairingFacts.Category_eqb_spec).
    split; apply Permutation_in; [exact Pc | symmetry; exact Pc]. }
  rewrite He. reflexivity.
Qed.

Lemma fontPairing_type_depends_on_family_set_witness :
  resultTypeOf
    (analyzeFontPairing [plainElement "Georgia" 24 1.4;
                         plainElement "Arial" 12 1.4])
  = resultTypeOf
      (analyzeFontPairing [plainElement "Arial" 30 1.2;
                           plainElement "Georgia" 10 1.5;
                           plainElement "Arial" 8 1.5]).
Proof.
  apply (fontPairing_type_depends_on_family_set
           [plainElement "Georgia" 24 1.4; plainElement "Arial" 12 1.4]
           [plainElement "Arial" 30 1.2; plainElement "Georgia" 10 1.5;
            plainElement "Arial" 8 1.5]).
  intros f. simpl. tauto.
Defined.

End FontPairingRules.

(** ** HierarchyAnalyzer: equal sizes, and sizes set by the scaler *)

Module HierarchyRules.
Import Analyzer.

Lemma filter_member_length {A} (f : A -> bool) (l : list A) (x : A) :
  In x l -> f x = true -> (1 <= length (List.filter f l))%nat.
Proof.
  intros Hin Hf.
  assert (H : In x (List.filter f l)) by (apply filter_In; auto).
  destruct (List.filter f l); [destruct H | simpl; lia].
Qed.

Lemma filter_two_positions {A} (f : A -> bool) (l : list A) :
  forall i j a b,
    i <> j -> l !! i = Some a -> l !! j = Some b ->
    f a = true -> f b = true ->
    (2 <= length (List.filter f l))%nat.
Proof.
  induction l as [| x l IH]; intros i j a b Hne Hi Hj Ha Hb;
    [discriminate |].
  destruct i as [| i], j as [| j]; simpl in Hi, Hj; simpl.
  - congruence.
  - injection Hi as ->. rewrite Ha. simpl.
    enough (1 <= length (List.filter f l))%nat by lia.
    apply (filter_member_length f l b); [| exact Hb].
    apply list_elem_of_In, list_elem_of_lookup. eauto.
  - injection Hj as ->. rewrite Hb. simpl.
    enough (1 <= length (List.filter f l))%nat by lia.
    apply (filter_member_length f l a); [| exact Ha].
    apply list_elem_of_In, list_elem_of_lookup. eauto.
  - assert (H : (2 <= length (List.filter f l))%nat).
    { apply (IH i j a b); auto. }
    destruct (f x); simpl; lia.
Qed.

Lemma equal_ratio_is_poor x y :
  x == y -> ~ Js.double x == 0 -> poorRatio (Js.div x y) = true.
Proof.
  intros Hxy Hx. unfold Js.div. cbv zeta.
  rewrite <- (JsFacts.double_comp x y Hxy).
  assert (E : Js.Qis_zero (Js.double x) = false)
    by (now apply JsFacts.Qis_zero_false).
  rewrite E.
  assert (H1 : Js.double x / Js.double x == 1) by (field; exact Hx).
  rewrite (JsFacts.double_comp _ 1 H1).
  vm_compute. reflexivity.
Qed.

(** Two members equal to [v] in a list in descending order make two
    neighbours equal to [v]. *)
Lemma repeated_size_has_poor_ratio (v : Q) (s : list Q) :
  ~ Js.double v == 0 ->
  StronglySorted (Js.descending (fun q : Q => q)) s ->
  (2 <= length (List.filter (Qeq_bool v) s))%nat ->
  existsb poorRatio (ratiosOf s) = true.
Proof.
  intros Hv Hs. induction Hs as [| x rest Hrest IH Hx]; intros Hc;
    [simpl in Hc; lia |].
  simpl in Hc. destruct (Qeq_bool v x) eqn:Ex.
  - apply Qeq_bool_iff in Ex.
    destruct rest as [| y0 rest']; [simpl in Hc; lia |].
    cbn [ratiosOf existsb]. apply orb_true_iff. left.
    assert (Hex : exists y, In y (y0 :: rest') /\ y == v).
    { destruct (List.filter (Qeq_bool v) (y0 :: rest')) as [| y l] eqn:Ef;
        [simpl in Hc; lia |].
      assert (Hin : In y (List.filter (Qeq_bool v) (y0 :: rest')))
        by (rewrite Ef; now left).
      apply filter_In in Hin. destruct Hin as [Hin Hy].
      apply Qeq_bool_iff in Hy. exists y. split; [exact Hin |].
      now symmetry. }
    destruct Hex as (y & Hin & Hy).
    assert (H0x : y0 <= x).
    { rewrite List.Forall_forall in Hx. apply (Hx y0). now left. }
    assert (Hy0 : y <= y0).
    { destruct Hin as [-> | Hin]; [lra |].
      inversion Hrest as [| ? ? _ Hall]; subst.
      rewrite List.Forall_forall in Hall. apply (Hall y Hin). }
    apply (equal_ratio_is_poor x y0); [lra |].
    now rewrite <- (JsFacts.double_comp v x Ex).
  - specialize (IH Hc).
    destruct rest as [| y0 rest']; [simpl in Hc; lia |].
    cbn [ratiosOf existsb]. apply orb_true_iff. right. exact IH.
Qed.

(** X8: whenever two elements at different positions have the same
    font size (other than [0], as a double), [analyzeHierarchy] returns
    an [Info] result, wherever the two stand and whatever the other
    sizes are. *)
Theorem hierarchy_equal_sizes_give_info :
  forall (elements : list TextElement) (i j : nat) (a b : TextElement),
    i <> j ->
    elements !! i = Some a ->
    elements !! j = Some b ->
    fontSize a == fontSize b ->
    ~ Js.double (fontSize a) == 0 ->
    resultTypeOf (analyzeHierarchy elements) = Some Info.
Proof.
  intros elements i j a b Hne Hi Hj Hab Hnz.
  assert (Hlen : (2 <= length elements)%nat).
  { apply lookup_lt_Some in Hi. apply lookup_lt_Some in Hj. lia. }
  rewrite (HierarchyFacts.analyzeHierarchy_type elements Hlen).
  set (sizes := map fontSize elements).
  assert (Hcount : (2 <= length (List.filter (Qeq_bool (fontSize a)) sizes))%nat).
  { apply (filter_two_positions _ sizes i j (fontSize a) (fontSize b) Hne).
    - unfold sizes. change (map fontSize elements) with (fontSize <$> elements).
      now rewrite list_lookup_fmap, Hi.
    - unfold sizes. change (map fontSize elements) with (fontSize <$> elements).
      now rewrite list_lookup_fmap, Hj.
    - apply Qeq_bool_iff. reflexivity.
    - apply Qeq_bool_iff. exact Hab. }
  rewrite (repeated_size_has_poor_ratio (fontSize a)); [reflexivity | exact Hnz | |].
  - apply Sorted_StronglySorted.
    + apply (ListFacts.descending_Transitive (fun q : Q => q)).
    + apply (ListFacts.sort_Sorted (fun q : Q => q)).
  - rewrite (FontPairingRules.filter_length_Permutation _ _ sizes);
      [exact Hcount |].
    apply (ListFacts.sort_Permutation (fun q : Q => q)).
Qed.

Lemma hierarchy_equal_sizes_give_info_witness :
  resultTypeOf
    (analyzeHierarchy [plainElement "Georgia" 12 1.4;
                       plainElement "Georgia" 36 1.4;
                       plainElement "Arial" 12 1.4])
  = Some Info.
Proof.
  apply (hierarchy_equal_sizes_give_info
           [plainElement "Georgia" 12 1.4; plainElement "Georgia" 36 1.4;
            plainElement "Arial" 12 1.4]
           0 2 (plainElement "Georgia" 12 1.4) (plainElement "Arial" 12 1.4)).
  - lia.
  - reflexivity.
  - reflexivity.
  - reflexivity.
  - vm_compute. discriminate.
Defined.

End HierarchyRules.

(** ** Typography fixes: what they keep and what they repeat *)

Module FixRules.
Import Fix.

Lemma eachTextFrame_items body result selection : forall i,
  fst (eachTextFrame body result i selection)
  = map (Notions.onTextFrame body) selection.
Proof.
  induction selection as [| item rest IH]; intros i; simpl; [reflexivity |].
  specialize (IH (S i)).
  destruct (eachTextFrame body result (S i) rest) as [rest' results].
  simpl in IH. subst rest'. destruct item; reflexivity.
Qed.

Lemma eachTextFrame_results body result selection : forall i,
  snd (eachTextFrame body result i selection)
  = map result (Notions.textFrameIndices i selection).
Proof.
  induction selection as [| item rest IH]; intros i; simpl; [reflexivity |].
  specialize (IH (S i)).
  destruct (eachTextFrame body result (S i) rest) as [rest' results].
  simpl in IH. subst results. destruct item; reflexivity.
Qed.

Lemma textFrameIndices_onTextFrame body selection : forall i,
  Notions.textFrameIndices i (map (Notions.onTextFrame body) selection)
  = Notions.textFrameIndices i selection.
Proof.
  induction selection as [| item rest IH]; intros i; simpl; [reflexivity |].
  destruct item; simpl; now rewrite IH.
Qed.

(** A loop whose body does nothing new the second time gives the same
    selection and the same results when it is run again. *)
Lemma eachTextFrame_twice body result selection i :
  (forall t, body (body t) = body t) ->
  eachTextFrame body result i
    (fst (eachTextFrame body result i selection))
  = eachTextFrame body result i selection.
Proof.
  intros Hbody.
  rewrite (surjective_pairing (eachTextFrame body result i selection)) at 2.
  rewrite (surjective_pairing
             (eachTextFrame body result i
                (fst (eachTextFrame body result i selection)))).
  rewrite !eachTextFrame_items, !eachTextFrame_results.
  rewrite textFrameIndices_onTextFrame. f_equal.
  rewrite map_map. apply map_ext. intros [t | ty]; simpl; [| reflexivity].
  now rewrite Hbody.
Qed.

Lemma sameText_onTextFrame body :
  (forall t, contents (body t) = contents t
             /\ textFont (body t) = textFont t
             /\ fillColor (body t) = fillColor t) ->
  forall selection,
    Forall2 Notions.sameText selection
            (map (Notions.onTextFrame body) selection).
Proof.
  intros Hbody selection.
  induction selection as [| item rest IH]; simpl; constructor; [| exact IH].
  destruct item as [t | ty]; simpl; [apply Hbody | reflexivity].
Qed.

Ltac frame_cases :=
  intros;
  repeat match goal with
         | |- context [match ?x with _ => _ end] => destruct x
         end;
  repeat split; reflexivity.

Ltac split_result :=
  let E := fresh "E" in
  let E1 := fresh "E" in
  let E2 := fresh "E" in
  intros E; injection E as E;
  pose proof (f_equal fst E) as E1; pose proof (f_equal snd E) as E2;
  cbn [fst snd] in E1, E2; clear E; subst.

Lemma collectFrames_indices selection : forall i,
  map index (collectFrames i selection)
  = Notions.textFrameIndices i selection.
Proof.
  induction selection as [| item rest IH]; intros i; simpl; [reflexivity |].
  destruct item; simpl; now rewrite IH.
Qed.

Lemma hierarchy_result_indices selection parameters :
  map Notions.resultIndex (snd (applyHierarchyFix selection parameters))
  = map index (sortedFrames selection).
Proof.
  rewrite ScalerFacts.applyHierarchyFix_results.
  generalize (length (sortedFrames selection)).
  generalize (sortedFrames selection). intros l n.
  apply list_eq. intros k.
  change (map Notions.resultIndex ?x) with (Notions.resultIndex <$> x).
  change (map index l) with (index <$> l).
  rewrite !list_lookup_fmap, list_lookup_imap.
  destruct (l !! k); reflexivity.
Qed.

Lemma sameText_setItemSize v x : Notions.sameText x (setItemSize v x).
Proof. destruct x; simpl; auto. Qed.

Lemma sameText_refl x : Notions.sameText x x.
Proof. destruct x; simpl; auto. Qed.

(** X9: each of the four fixes keeps the selection's items in place:
    other items are untouched and a text frame keeps its contents, font
    and fill colour; and it returns exactly one result per text frame,
    none for any other item. *)
Theorem fixes_keep_items_and_report_each_frame :
  forall (fixType : string) (selection : list PageItem)
         (parameters : Parameters) (selection' : list PageItem)
         (results : list FixResult),
    Script.dispatchFix fixType selection parameters
    = inr (selection', results) ->
    Forall2 Notions.sameText selection selection'
    /\ Permutation (map Notions.resultIndex results)
                   (Notions.textFrameIndices 0 selection).
Proof.
  intros fixType selection parameters selection' results.
  unfold Script.dispatchFix.
  destruct (String.eqb fixType "kerning").
  { split_result. unfold applyKerningFix.
    rewrite eachTextFrame_items, eachTextFrame_results, map_map. split.
    - apply sameText_onTextFrame. frame_cases.
    - simpl. now rewrite map_id. }
  destruct (String.eqb fixType "hierarchy").
  { split_result. split.
    - apply Forall2_same_length_lookup. split.
      + symmetry. apply ScalerFacts.applyHierarchyFix_length.
      + intros i x y Hx Hy.
        destruct (in_dec Nat.eq_dec i (map index (sortedFrames selection)))
          as [Hin | Hout].
        * apply in_map_iff in Hin. destruct Hin as (e & <- & Hin).
          apply list_elem_of_In, list_elem_of_lookup in Hin.
          destruct Hin as (k & Hk).
          rewrite (ScalerFacts.applyHierarchyFix_lookup _ _ k e Hk), Hx in Hy.
          injection Hy as <-. apply sameText_setItemSize.
        * rewrite ScalerFacts.applyHierarchyFix_other in Hy by exact Hout.
          rewrite Hx in Hy. injection Hy as <-. apply sameText_refl.
    - rewrite hierarchy_result_indices, <- collectFrames_indices.
      apply Permutation_map, ScalerFacts.sortedFrames_Permutation. }
  destruct (String.eqb fixType "readability").
  { split_result. unfold applyReadabilityFix.
    rewrite eachTextFrame_items, eachTextFrame_results, map_map. split.
    - apply sameText_onTextFrame. frame_cases.
    - simpl. now rewrite map_id. }
  destruct (String.eqb fixType "alignment").
  { split_result. unfold applyAlignmentFix.
    rewrite eachTextFrame_items, eachTextFrame_results, map_map. split.
    - apply sameText_onTextFrame. frame_cases.
    - simpl. now rewrite map_id. }
  discriminate.
Qed.

Lemma fixes_keep_items_and_report_each_frame_witness :
  let selection := [ OtherItem "PathItem";
                     TextFrameItem (plainFrame 24 "Heading");
                     TextFrameItem (plainFrame 12 "Body") ] in
  let out := applyHierarchyFix selection
               {| opticalKerning := false; kerningPairs := false;
                  tracking := None; scaleRatio := None;
                  baseSize := Some 10; lineHeight := None;
                  characterSpacing := None; alignment := None |} in
  Forall2 Notions.sameText selection (fst out)
  /\ Permutation (map Notions.resultIndex (snd out))
                 (Notions.textFrameIndices 0 selection).
Proof.
  intros selection out.
  apply (fixes_keep_items_and_report_each_frame "hierarchy" selection
           {| opticalKerning := false; kerningPairs := false;
              tracking := None; scaleRatio := None;
              baseSize := Some 10; lineHeight := None;
              characterSpacing := None; alignment := None |}
           (fst out) (snd out)).
  reflexivity.
Defined.

(** X10: the kerning, readability and alignment fixes are idempotent:
    run again with the same parameters on their own output they return
    the same selection and the same results. *)
Theorem simple_fixes_idempotent :
  forall (selection : list PageItem) (parameters : Parameters),
    applyKerningFix (fst (applyKerningFix selection parameters)) parameters
    = applyKerningFix selection parameters
    /\ applyReadabilityFix
         (fst (applyReadabilityFix selection parameters)) parameters
       = applyReadabilityFix selection parameters
    /\ applyAlignmentFix
         (fst (applyAlignmentFix selection parameters)) parameters
       = applyAlignmentFix selection parameters.
Proof.
  intros selection parameters.
  unfold applyKerningFix, applyReadabilityFix, applyAlignmentFix.
  repeat split; apply eachTextFrame_twice; intros t;
    repeat match goal with
           | |- context [match ?x with _ => _ end] => destruct x
           end;
    reflexivity.
Qed.

(** X11: with a [lineHeight] other than [0], the readability fix gives
    every text frame the leading [size * lineHeight], computed from the
    frame's own size, which it leaves as it is; the leading is never
    [NaN]. *)
Theorem readability_fix_leading_from_own_size :
  forall (selection : list PageItem) (parameters : Parameters) (lh : Q)
         (i : nat) (t : TextFrame),
    lineHeight parameters = Some lh ->
    ~ lh == 0 ->
    selection !! i = Some (TextFrameItem t) ->
    exists t',
      fst (applyReadabilityFix selection parameters) !! i
      = Some (TextFrameItem t')
      /\ leading t' = Js.Fin (size t * lh)
      /\ size t' = size t.
Proof.
  intros selection parameters lh i t Elh Hlh Hi.
  unfold applyReadabilityFix. rewrite eachTextFrame_items.
  change (map ?f selection) with (f <$> selection).
  rewrite list_lookup_fmap, Hi. simpl.
  rewrite Elh, (FormatFacts.truthyNum_nonzero lh Hlh).
  eexists. split; [reflexivity |].
  destruct (Js.truthyNum (characterSpacing parameters)); split; reflexivity.
Qed.

Lemma readability_fix_leading_from_own_size_witness :
  exists t',
    fst (applyReadabilityFix
           [TextFrameItem (plainFrame 10 "Body")]
           {| opticalKerning := false; kerningPairs := false;
              tracking := None; scaleRatio := None; baseSize := None;
              lineHeight := Some 1.4; characterSpacing := None;
              alignment := None |}) !! 0%nat
    = Some (TextFrameItem t')
    /\ leading t' = Js.Fin (10 * 1.4)
    /\ size t' = 10.
Proof.
  apply (readability_fix_leading_from_own_size
           [TextFrameItem (plainFrame 10 "Body")]
           {| opticalKerning := false; kerningPairs := false;
              tracking := None; scaleRatio := None; baseSize := None;
              lineHeight := Some 1.4; characterSpacing := None;
              alignment := None |}
           1.4 0 (plainFrame 10 "Body")).
  - reflexivity.
  - discriminate.
  - reflexivity.
Defined.

(** X12: an alignment value other than left, center, right and justify
    changes nothing in the selection, and still every text frame is
    reported with that value as the alignment applied. *)
Theorem alignment_fix_unknown_value_reported :
  forall (selection : list PageItem) (parameters : Parameters) (a : string),
    alignment parameters = Some a ->
    ~ Notions.knownAlignment a ->
    applyAlignmentFix selection parameters
    = (selection,
       map (fun i => AlignmentResult i (Some a))
           (Notions.textFrameIndices 0 selection)).
Proof.
  intros selection parameters a Ea Hu. unfold applyAlignmentFix.
  rewrite (surjective_pairing (eachTextFrame _ _ _ _)).
  rewrite eachTextFrame_items, eachTextFrame_results, Ea. f_equal.
  rewrite <- (map_id selection) at 2. apply map_ext.
  intros [t | ty]; [| reflexivity].
  unfold Notions.knownAlignment in Hu. unfold Notions.onTextFrame. f_equal.
  destruct (Js.truthyStr (Some a)) as [a' |] eqn:Et; [| reflexivity].
  assert (a' = a) by (destruct a; simpl in Et; congruence). subst a'.
  repeat match goal with
         | |- context [String.eqb ?x ?y] =>
             destruct (String.eqb_spec x y); [tauto |]
         end.
  reflexivity.
Qed.

Lemma alignment_fix_unknown_value_reported_witness :
  let selection := [TextFrameItem (plainFrame 10 "Body")] in
  applyAlignmentFix selection
    {| opticalKerning := false; kerningPairs := false;
       tracking := None; scaleRatio := None; baseSize := None;
       lineHeight := None; characterSpacing := None;
       alignment := Some "middle" |}
  = (selection, [AlignmentResult 0 (Some "middle")]).
Proof.
  intros selection.
  apply (alignment_fix_unknown_value_reported selection
           {| opticalKerning := false; kerningPairs := false;
              tracking := None; scaleRatio := None; baseSize := None;
              lineHeight := None; characterSpacing := None;
              alignment := Some "middle" |} "middle").
  - reflexivity.
  - unfold Notions.knownAlignment.
    intros [H | [H | [H | H]]]; discriminate.
Defined.

(** A fix works on the document's own frames: applied through a
    selection that holds a path and the second text frame, the
    alignment fix is seen in [doc.textFrames], at that frame only. *)
Example fix_seen_through_textFrames :
  let doc := {| Script.selection :=
                  [Script.SelectedOther "PathItem"; Script.SelectedFrame 1];
                Script.textFrames := [plainFrame 20 "Title";
                                      plainFrame 12 "Body"] |} in
  let app := {| Script.activeDocument := Some doc;
                Script.textFonts := ["Helvetica"] |} in
  let parameters :=
    {| opticalKerning := false; kerningPairs := false; tracking := None;
       scaleRatio := None; baseSize := None; lineHeight := None;
       characterSpacing := None; alignment := Some "center" |} in
  Script.applyTypographyFix app "alignment" parameters
  = ({| Script.activeDocument :=
          Some {| Script.selection := Script.selection doc;
                  Script.textFrames :=
                    [plainFrame 20 "Title";
                     set_justification JCenter (plainFrame 12 "Body")] |};
        Script.textFonts := ["Helvetica"] |},
     Script.FixApplied "alignment" [AlignmentResult 1 (Some "center")]).
Proof. reflexivity. Qed.

End FixRules.

(** ** FormatRuleEngine: selectors and rule lists *)

Module FormatRules.
Import Format Script.

(** X14: a heading rule and a body rule with the same threshold (or
    both with none, hence 18) split the frames between them: on every
    frame exactly one of the two applies. *)
Theorem heading_and_body_rules_are_complementary :
  forall (t : TextFrame) (heading body : FormatRule),
    selector heading = "heading" ->
    selector body = "body" ->
    headingThreshold heading = headingThreshold body ->
    shouldApplyRule t heading = negb (shouldApplyRule t body).
Proof.
  intros t heading body Hh Hb Ht. unfold shouldApplyRule.
  rewrite Hh, Hb, Ht. simpl. unfold Js.Qgtb, Js.Qltb. reflexivity.
Qed.

Lemma heading_and_body_rules_are_complementary_witness :
  let rule sel := {| name := None; selector := sel;
                     headingThreshold := Some 20; text := None;
                     fontFamily := None; fontSize := None;
                     lineHeight := None; characterSpacing := None;
                     color := None |} in
  shouldApplyRule (plainFrame 20 "Title") (rule "heading")
  = negb (shouldApplyRule (plainFrame 20 "Title") (rule "body")).
Proof.
  intros rule.
  apply (heading_and_body_rules_are_complementary
           (plainFrame 20 "Title") (rule "heading") (rule "body"));
    reflexivity.
Defined.

Section Lists.
Variable fonts : list string.

Lemma formatLoop_app before after : forall j j' t applied applied',
  fst (formatLoop fonts j (before ++ after) t applied)
  = fst (formatLoop fonts j' after
           (fst (formatLoop fonts j before t applied)) applied').
Proof.
  induction before as [| r before IH]; intros j j' t a a'; simpl.
  - apply ScriptFacts.formatLoop_frame.
  - destruct (shouldApplyRule t r); apply IH.
Qed.

Lemma formatFrame_app before after t :
  fst (formatFrame fonts (before ++ after) t)
  = fst (formatFrame fonts after (fst (formatFrame fonts before t))).
Proof. unfold formatFrame. apply formatLoop_app. Qed.

Lemma batchLoop_frames rules : forall i frames,
  fst (batchLoop fonts rules i frames)
  = map (fun t => fst (formatFrame fonts rules t)) frames.
Proof.
  intros i frames. revert i.
  induction frames as [| t frames IH]; intros i; simpl; [reflexivity |].
  destruct (formatFrame fonts rules t) as [t1 a1].
  specialize (IH (S i)).
  destruct (batchLoop fonts rules (S i) frames) as [f1 r1].
  simpl in *. now rewrite IH.
Qed.

Lemma batchLoop_indices rules : forall i frames,
  map index (snd (batchLoop fonts rules i frames))
  = seq i (length frames).
Proof.
  intros i frames. revert i.
  induction frames as [| t frames IH]; intros i; simpl; [reflexivity |].
  destruct (formatFrame fonts rules t) as [t1 a1].
  specialize (IH (S i)).
  destruct (batchLoop fonts rules (S i) frames) as [f1 r1].
  simpl in *. now rewrite IH.
Qed.

Lemma formatLoop_applied_length rules : forall j t applied,
  (length (snd (formatLoop fonts j rules t applied))
   <= length applied + length rules)%nat.
Proof.
  induction rules as [| r rules IH]; intros j t a; simpl; [lia |].
  destruct (shouldApplyRule t r).
  - etransitivity; [apply IH |]. rewrite length_app. simpl. lia.
  - etransitivity; [apply IH |]. lia.
Qed.

Lemma formatLoop_untouched rules : forall j t applied,
  let t' := fst (formatLoop fonts j rules t applied) in
  contents t' = contents t
  /\ autoKernType t' = autoKernType t
  /\ justification t' = justification t.
Proof.
  induction rules as [| r rules IH]; intros j t a; simpl; [auto |].
  destruct (shouldApplyRule t r); [| apply IH].
  destruct (IH (S j) (applyFormattingRule fonts t r) (a ++ [ruleId r j]))
    as (H1 & H2 & H3).
  destruct (FormatFacts.apply_untouched fonts t r) as (G1 & G2 & G3).
  cbv zeta in *. repeat split; congruence.
Qed.

Lemma batchLoop_applied_length rules : forall i frames,
  Forall (fun r => (length (appliedRules r) <= length rules)%nat)
         (snd (batchLoop fonts rules i frames)).
Proof.
  intros i frames. revert i.
  induction frames as [| t frames IH]; intros i; simpl; [constructor |].
  pose proof (formatLoop_applied_length rules 0 t []) as HL.
  unfold formatFrame.
  destruct (formatLoop fonts 0 rules t []) as [t1 a1].
  specialize (IH (S i)).
  destruct (batchLoop fonts rules (S i) frames) as [f1 r1].
  simpl in *. constructor; [exact HL | exact IH].
Qed.

End Lists.

(** X15: formatting with the rule list [before ++ after] leaves the
    application in the same state as formatting with [before] and then
    with [after]. *)
Theorem batchFormat_rule_lists_compose :
  forall (app : App) (before after : list FormatRule),
    fst (batchFormatText app (before ++ after))
    = fst (batchFormatText (fst (batchFormatText app before)) after).
Proof.
  intros app before after. unfold batchFormatText.
  destruct (activeDocument app) as [doc |] eqn:Edoc; simpl.
  - rewrite (surjective_pairing (batchLoop _ (before ++ after) _ _)).
    rewrite (surjective_pairing (batchLoop _ before _ _)). simpl.
    rewrite (surjective_pairing (batchLoop _ after _ _)). simpl.
    rewrite !batchLoop_frames, map_map. do 3 f_equal.
    apply map_ext. intros t. apply formatFrame_app.
  - now rewrite Edoc.
Qed.

(** X16: a later rule overrides an earlier one: when the last rule of
    the list has the selector all and a font size other than [0], every
    frame ends with that size, whatever the rules before it did. *)
Theorem last_all_rule_sets_the_size :
  forall (fonts : list string) (rules : list FormatRule) (rule : FormatRule)
         (s : Q) (t : TextFrame),
    selector rule = "all" ->
    fontSize rule = Some s ->
    ~ s == 0 ->
    size (fst (formatFrame fonts (rules ++ [rule]) t)) = s.
Proof.
  intros fonts rules rule s t Hsel Hsize Hs.
  rewrite formatFrame_app. unfold formatFrame at 1. simpl.
  unfold shouldApplyRule. rewrite Hsel. simpl.
  rewrite FormatFacts.apply_size, Hsize.
  now rewrite (FormatFacts.truthyNum_nonzero s Hs).
Qed.

Lemma last_all_rule_sets_the_size_witness :
  let rule sel s := {| name := None; selector := sel;
                       headingThreshold := None; text := None;
                       fontFamily := None; fontSize := Some s;
                       lineHeight := None; characterSpacing := None;
                       color := None |} in
  size (fst (formatFrame ["Helvetica"]
               ([rule "heading" 24] ++ [rule "all" 10])
               (plainFrame 30 "Title")))
  = 10.
Proof.
  intros rule.
  apply (last_all_rule_sets_the_size ["Helvetica"] [rule "heading" 24]
           (rule "all" 10) 10 (plainFrame 30 "Title")).
  - reflexivity.
  - reflexivity.
  - discriminate.
Defined.

(** X17: with a document open, [batchFormatText] reports every text
    frame of the document once, in order, with indices [0 .. n-1] and
    [processed = n]; no frame gets more rule identifiers than there are
    rules; the number of frames, their contents, kerning type and
    justification and the installed fonts are as before.  The selection
    holds the same entries, and as a selected text frame is one of the
    document's frames, what the selection shows of it afterwards is
    the frame as formatted. *)
Theorem batchFormat_reports_every_frame :
  forall (app : App) (doc : Document) (rules : list FormatRule),
    activeDocument app = Some doc ->
    exists frames' results,
      batchFormatText app rules
      = ({| activeDocument :=
              Some {| selection := selection doc; textFrames := frames' |};
            textFonts := textFonts app |},
         Formatted (length (textFrames doc)) results)
      /\ map index results = seq 0 (length (textFrames doc))
      /\ Forall (fun r => (length (appliedRules r) <= length rules)%nat)
                results
      /\ Forall2 (fun t t' => contents t' = contents t
                              /\ autoKernType t' = autoKernType t
                              /\ justification t' = justification t)
                 (textFrames doc) frames'
      /\ selectionItems
           {| selection := selection doc; textFrames := frames' |}
         = map (Notions.onTextFrame
                  (fun t => fst (formatFrame (textFonts app) rules t)))
               (selectionItems doc).
Proof.
  intros app doc rules Hdoc. unfold batchFormatText. rewrite Hdoc.
  pose proof (batchLoop_frames (textFonts app) rules 0 (textFrames doc)) as Hf.
  pose proof (batchLoop_indices (textFonts app) rules 0 (textFrames doc))
    as Hi.
  pose proof (batchLoop_applied_length (textFonts app) rules 0
                (textFrames doc)) as Ha.
  pose proof (ScriptFacts.batchLoop_length (textFonts app) rules 0
                (textFrames doc)) as Hl.
  destruct (batchLoop (textFonts app) rules 0 (textFrames doc))
    as [frames' results].
  simpl in *. exists frames', results. rewrite Hl.
  repeat split; [exact Hi | exact Ha | |].
  - subst frames'. clear. induction (textFrames doc) as [| t l IH]; simpl;
      constructor; [| exact IH].
    apply (formatLoop_untouched (textFonts app) rules 0 t []).
  - subst frames'. unfold selectionItems. cbn [selection textFrames].
    rewrite map_map. apply map_ext. intros [i | typename]; simpl;
      [| reflexivity].
    change (map ?f ?l !! i) with ((f <$> l) !! i).
    rewrite list_lookup_fmap.
    destruct (textFrames doc !! i); reflexivity.
Qed.

Lemma batchFormat_reports_every_frame_witness :
  let doc := {| selection := [SelectedFrame 1; SelectedOther "PathItem"];
                textFrames := [plainFrame 20 "Title";
                               plainFrame 12 "Body"] |} in
  let app := {| activeDocument := Some doc; textFonts := ["Helvetica"] |} in
  let rule sel s := {| name := None; selector := sel;
                       headingThreshold := None; text := None;
                       fontFamily := None; fontSize := Some s;
                       lineHeight := Some 1.5; characterSpacing := None;
                       color := None |} in
  let rules := [rule "heading" 24; rule "body" 10] in
  exists frames' results,
    batchFormatText app rules
    = ({| activeDocument :=
            Some {| selection := selection doc; textFrames := frames' |};
          textFonts := textFonts app |},
       Formatted (length (textFrames doc)) results)
    /\ map index results = seq 0 (length (textFrames doc))
    /\ Forall (fun r => (length (appliedRules r) <= length rules)%nat)
              results
    /\ Forall2 (fun t t' => contents t' = contents t
                            /\ autoKernType t' = autoKernType t
                            /\ justification t' = justification t)
               (textFrames doc) frames'
    /\ selectionItems
         {| selection := selection doc; textFrames := frames' |}
       = map (Notions.onTextFrame
                (fun t => fst (formatFrame (textFonts app) rules t)))
             (selectionItems doc).
Proof.
  intros doc app rule rules.
  apply (batchFormat_reports_every_frame app doc rules).
  reflexivity.
Defined.

(** The selection shows the formatting: the selected body frame of the
    document above is read through the selection at size 10, and the
    unselected title is at size 24. *)
Example batchFormat_seen_through_selection :
  let doc := {| selection := [SelectedFrame 1; SelectedOther "PathItem"];
                textFrames := [plainFrame 20 "Title";
                               plainFrame 12 "Body"] |} in
  let app := {| activeDocument := Some doc; textFonts := ["Helvetica"] |} in
  let rule sel s := {| name := None; selector := sel;
                       headingThreshold := None; text := None;
                       fontFamily := None; fontSize := Some s;
                       lineHeight := Some 1.5; characterSpacing := None;
                       color := None |} in
  match activeDocument
          (fst (batchFormatText app [rule "heading" 24; rule "body" 10])) with
  | Some doc' =>
      Spec.frameSizes (selectionItems doc') = [10]
      /\ map size (textFrames doc') = [24; 10]
  | None => False
  end.
Proof. simpl. split; reflexivity. Qed.

End FormatRules.

(** ** Helper functions of the host script *)

Module HelperFacts.
Import Helpers.

(** *** Substrings *)

Lemma append_assoc (a b c : string) :
  String.append (String.append a b) c = String.append a (String.append b c).
Proof. induction a as [| x a IH]; simpl; [reflexivity | now rewrite IH]. Qed.

Lemma prefix_append sub : forall s,
  String.prefix sub s = true <-> exists q, s = String.append sub q.
Proof.
  induction sub as [| a sub IH]; intros s.
  - split; [intros _; exists s; reflexivity |].
    intros _. destruct s; reflexivity.
  - destruct s as [| b s]; simpl.
    + split; [discriminate | intros (q & Hq); discriminate].
    + destruct (ascii_dec a b) as [-> | Hne].
      * rewrite IH. split; intros (q & Hq); exists q; congruence.
      * split; [discriminate | intros (q & Hq); congruence].
Qed.

(** [includes] finds exactly the strings that occur somewhere. *)
Lemma includes_occurs s : forall sub,
  Analyzer.includes s sub = true <->
  exists p q, s = String.append p (String.append sub q).
Proof.
  induction s as [| c t IH]; intros sub.
  - change (Analyzer.includes EmptyString sub)
      with (String.prefix sub EmptyString || false)%bool.
    rewrite orb_false_r, prefix_append. split.
    + intros (q & Hq). exists EmptyString, q. exact Hq.
    + intros (p & q & H). destruct p; [| discriminate].
      exists q. exact H.
  - change (Analyzer.includes (String c t) sub)
      with (String.prefix sub (String c t) || Analyzer.includes t sub)%bool.
    rewrite orb_true_iff, prefix_append, IH. split.
    + intros [(q & Hq) | (p & q & Hpq)].
      * exists EmptyString, q. exact Hq.
      * exists (String c p), q. simpl. now rewrite Hpq.
    + intros (p & q & H). destruct p as [| c' p]; simpl in H.
      * left. exists q. exact H.
      * right. exists p, q. congruence.
Qed.

Lemma includes_tail s a b :
  Analyzer.includes s (String.append a b) = true ->
  Analyzer.includes s b = true.
Proof.
  rewrite !includes_occurs. intros (p & q & H).
  exists (String.append p a), q. now rewrite H, !append_assoc.
Qed.

(** X18: [getFontWeight] answers bold, light, medium, black or
    regular and never semibold: a name that contains semibold contains
    bold, which is tested first. *)
Theorem getFontWeight_never_semibold :
  forall textFont : option string,
    getFontWeight textFont <> "semibold"
    /\ In (getFontWeight textFont)
          ["bold"; "light"; "medium"; "black"; "regular"].
Proof.
  intros [fontName |]; [| split; [discriminate | simpl; tauto]].
  unfold getFontWeight.
  set (n := Analyzer.toLowerCase fontName).
  destruct (Analyzer.includes n "bold") eqn:Eb;
    [split; [discriminate | simpl; tauto] |].
  assert (Es : Analyzer.includes n "semibold" = false).
  { apply not_true_iff_false. intros H.
    apply (includes_tail n "semi" "bold") in H. congruence. }
  rewrite Es.
  destruct (Analyzer.includes n "light");
    [split; [discriminate | simpl; tauto] |].
  destruct (Analyzer.includes n "medium");
    [split; [discriminate | simpl; tauto] |].
  destruct (Analyzer.includes n "black");
    split; try discriminate; simpl; tauto.
Qed.

(** *** Colours *)

Lemma byte_hex_parses n :
  (0 <= n <= 255)%Z ->
  exists c1 c2,
    padStart2 (integerToHex n) = String c1 (String c2 EmptyString)
    /\ Format.parseInt16 (String c1 (String c2 EmptyString))
       = Js.Fin (inject_Z n).
Proof.
  intros Hn.
  assert (Hall :
            forallb
              (fun k =>
                 match padStart2 (integerToHex (Z.of_nat k)) with
                 | String c1 (String c2 EmptyString) =>
                     match Format.parseInt16
                             (String c1 (String c2 EmptyString)) with
                     | Js.Fin (Qmake v 1) => Z.eqb v (Z.of_nat k)
                     | _ => false
                     end
                 | _ => false
                 end)
              (seq 0 256) = true) by (vm_compute; reflexivity).
  rewrite forallb_forall in Hall.
  specialize (Hall (Z.to_nat n)).
  rewrite Z2Nat.id in Hall by lia.
  assert (Hin : In (Z.to_nat n) (seq 0 256)) by (apply in_seq; lia).
  specialize (Hall Hin).
  destruct (padStart2 (integerToHex n)) as [| c1 [| c2 [| ? ?]]];
    try discriminate.
  exists c1, c2. split; [reflexivity |].
  destruct (Format.parseInt16 (String c1 (String c2 EmptyString)))
    as [| ? | [v [| |]]]; try discriminate.
  apply Z.eqb_eq in Hall. subst v. reflexivity.
Qed.

(** X19: the hexadecimal text that [getColorHex] writes for an RGB
    colour is read back by the colour parser of the formatting rules:
    when every channel rounds to a value within [0, 255], parsing gives
    the rounded channels. *)
Theorem color_hex_round_trip :
  forall r g b : Q,
    (0 <= round r <= 255)%Z ->
    (0 <= round g <= 255)%Z ->
    (0 <= round b <= 255)%Z ->
    Format.parseColor
      (getColorHex
         (Some (RGB {| red := Js.Fin r; green := Js.Fin g;
                       blue := Js.Fin b |})))
    = {| red := Js.Fin (inject_Z (round r));
         green := Js.Fin (inject_Z (round g));
         blue := Js.Fin (inject_Z (round b)) |}.
Proof.
  intros r g b Hr Hg Hb. unfold getColorHex. cbn [red green blue roundedToHex].
  destruct (byte_hex_parses (round r) Hr) as (r1 & r2 & Er & Pr).
  destruct (byte_hex_parses (round g) Hg) as (g1 & g2 & Eg & Pg).
  destruct (byte_hex_parses (round b) Hb) as (b1 & b2 & Eb & Pb).
  rewrite Er, Eg, Eb. unfold Format.parseColor.
  cbn [String.append String.substring].
  now rewrite Pr, Pg, Pb.
Qed.

Lemma color_hex_round_trip_witness :
  Format.parseColor
    (getColorHex
       (Some (RGB {| red := Js.Fin 255; green := Js.Fin 127.5;
                     blue := Js.Fin 0 |})))
  = {| red := Js.Fin (inject_Z (round 255));
       green := Js.Fin (inject_Z (round 127.5));
       blue := Js.Fin (inject_Z (round 0)) |}.
Proof.
  apply (color_hex_round_trip 255 127.5 0); vm_compute; split; discriminate.
Defined.

(** *** Line length *)

Lemma longestLine_from lines : forall acc bound,
  (acc <= bound)%Z ->
  (forall l, In l lines -> (Z.of_nat (String.length l) <= bound)%Z) ->
  let result :=
    fold_left
      (fun maxLineLength line =>
         if Z.ltb maxLineLength (Z.of_nat (String.length line))
         then Z.of_nat (String.length line)
         else maxLineLength)
      lines acc in
  (acc <= result <= bound)%Z.
Proof.
  induction lines as [| l lines IH]; intros acc bound Hacc Hall; simpl;
    [lia |].
  assert (Hl : (Z.of_nat (String.length l) <= bound)%Z)
    by (apply Hall; now left).
  destruct (Z.ltb_spec acc (Z.of_nat (String.length l))).
  - destruct (IH (Z.of_nat (String.length l)) bound Hl) as [H1 H2];
      [intros; apply Hall; now right |].
    simpl in H1, H2. lia.
  - destruct (IH acc bound Hacc) as [H1 H2];
      [intros; apply Hall; now right |].
    simpl in H1, H2. lia.
Qed.

Lemma split_lengths sep s : forall l,
  In l (split sep s) -> (String.length l <= String.length s)%nat.
Proof.
  induction s as [| c t IH]; intros l Hin; simpl in Hin.
  - destruct Hin as [<- | []]. simpl. lia.
  - destruct (Ascii.eqb c sep).
    + destruct Hin as [<- | Hin]; simpl; [lia |].
      specialize (IH l Hin). lia.
    + destruct (split sep t) as [| head rest] eqn:Es.
      * destruct Hin as [<- | []]. simpl. lia.
      * destruct Hin as [<- | Hin]; simpl.
        -- specialize (IH head ltac:(now left)). lia.
        -- specialize (IH l ltac:(now right)). lia.
Qed.

(** X20: for a frame width that is not negative, the estimated line
    length is at least [0], at most the length of the text, and at most
    a seventh of the width; it is [0] for every frame narrower than 7
    and for an empty text. *)
Theorem estimateLineLength_bounds :
  forall (text : string) (frameWidth : Q),
    0 <= frameWidth ->
    let n := estimateLineLength text frameWidth in
    (0 <= n)%Z
    /\ (n <= Z.of_nat (String.length text))%Z
    /\ inject_Z n * 7 <= frameWidth
    /\ (frameWidth < 7 -> n = 0%Z)
    /\ (text = EmptyString -> n = 0%Z).
Proof.
  intros text w Hw n. subst n. unfold estimateLineLength, longestLine.
  destruct (longestLine_from (split lineFeed text) 0
              (Z.of_nat (String.length text)) ltac:(lia)) as [L1 L2].
  { intros l Hl. apply Nat2Z.inj_le. now apply split_lengths in Hl. }
  cbv zeta in L1, L2.
  set (longest := fold_left _ (split lineFeed text) 0%Z) in *.
  assert (F0 : (0 <= Qfloor (w / 7))%Z).
  { change 0%Z with (Qfloor 0). apply Qfloor_resp_le.
    apply Qle_shift_div_l; lra. }
  assert (F1 : inject_Z (Qfloor (w / 7)) * 7 <= w).
  { pose proof (Qfloor_le (w / 7)) as H.
    apply (Qmult_le_compat_r _ _ 7) in H; [| lra].
    eapply Qle_trans; [exact H |]. field_simplify. lra. }
  assert (Hmin : (Z.min longest (Qfloor (w / 7)) <= Qfloor (w / 7))%Z)
    by lia.
  repeat split.
  - lia.
  - lia.
  - eapply Qle_trans; [| exact F1].
    apply Qmult_le_compat_r; [| lra]. rewrite <- Zle_Qle. exact Hmin.
  - intros H7.
    assert (Hf : (Qfloor (w / 7) <= 0)%Z).
    { enough (Qfloor (w / 7) < 1)%Z by lia.
      rewrite Zlt_Qlt. eapply Qle_lt_trans; [apply Qfloor_le |].
      change (inject_Z 1) with 1.
      apply Qlt_shift_div_r; lra. }
    lia.
  - intros ->. simpl in L2. lia.
Qed.

Lemma estimateLineLength_bounds_witness :
  let n := estimateLineLength "Typography" 50 in
  (0 <= n)%Z
  /\ (n <= Z.of_nat (String.length "Typography"))%Z
  /\ inject_Z n * 7 <= 50
  /\ (50 < 7 -> n = 0%Z)
  /\ ("Typography" = EmptyString -> n = 0%Z).
Proof.
  apply (estimateLineLength_bounds "Typography" 50).
  discriminate.
Defined.

(** *** Distinct names *)

Lemma distinctNames_In names x : In x (distinctNames names) <-> In x names.
Proof.
  apply (ListFacts.dedupe_In String.eqb FontPairingFacts.String_eqb_spec).
Qed.

Lemma distinctNames_NoDup names : List.NoDup (distinctNames names).
Proof.
  apply (ListFacts.dedupe_NoDup String.eqb FontPairingFacts.String_eqb_spec).
Qed.

(** X21: the lists built by [getSelectionTypes], [getUsedFonts] and
    [getUsedColors] hold no name twice, and hold exactly the type names
    of the selected items, the font names of the text frames and the
    hexadecimal colours of the text frames. *)
Theorem context_lists_are_distinct_and_complete :
  (forall selection : list PageItem,
      List.NoDup (getSelectionTypes selection)
      /\ forall ty, In ty (getSelectionTypes selection) <->
                    exists item, In item selection /\ typenameOf item = ty)
  /\ (forall textFrames : list TextFrame,
         List.NoDup (getUsedFonts textFrames)
         /\ forall f, In f (getUsedFonts textFrames) <->
                      exists t, In t textFrames /\ textFont t = f)
  /\ (forall textFrames : list TextFrame,
         List.NoDup (getUsedColors textFrames)
         /\ forall c, In c (getUsedColors textFrames) <->
                      exists t, In t textFrames
                                /\ getColorHex (Some (RGB (fillColor t))) = c).
Proof.
  repeat split; try apply distinctNames_NoDup;
    unfold getSelectionTypes, getUsedFonts, getUsedColors;
    rewrite distinctNames_In, in_map_iff.
  all: try (intros (x & Hx & Hin); exists x; split; assumption).
Qed.

End HelperFacts.

(** ** AutoFitSolver against a consistent host *)

Module AutoFitRules.
Import AutoFit.

Section Threshold.
(** The host reports overflow exactly when the size exceeds [limit]. *)
Variable limit : Q.

Lemma shrinkLoop_fits n : forall st,
  2 ^ (-1021) <= size (frame st) * Js.pow shrinkLow n ->
  size (frame st) * Js.pow shrinkHigh n <= limit ->
  size (frame (shrinkLoop (thresholdProbe limit) n st)) <= limit.
Proof.
  destruct AutoFitFacts.step_factors
    as (F1 & F2 & F3 & _ & _ & _ & _ & _ & F4).
  destruct AutoFitFacts.literal_factors as (_ & _ & _ & _ & _ & _ & P & _).
  induction n as [| n IH]; intros st Hlow Hfit;
    set (s := size (frame st)) in *;
    cbn [shrinkLoop overflowed]; fold s;
    destruct (thresholdProbe limit (queries st) s) eqn:E;
    unfold thresholdProbe in E; cbn [frame size]; fold s.
  - apply JsFacts.Qltb_lt in E. rewrite JsFacts.pow_0 in Hfit. lra.
  - now apply JsFacts.Qltb_ge in E.
  - pose proof (JsFacts.pow_S shrinkLow n) as HS.
    pose proof (JsFacts.pow_S shrinkHigh n) as HS'.
    pose proof (JsFacts.pow_pos shrinkLow n F1) as Hp.
    pose proof (JsFacts.pow_le_one shrinkLow n F1 F2) as Hle.
    pose proof (JsFacts.pow_pos shrinkHigh n F4) as Hp'.
    rewrite HS in Hlow. rewrite HS' in Hfit.
    assert (Hs : 2 ^ (-1021) <= s).
    { apply (AutoFitFacts.scaled_lower _ s (shrinkLow * Js.pow shrinkLow n));
        [exact P | nra | nra | exact Hlow]. }
    destruct (AutoFitFacts.shrinkStep s Hs) as [L U].
    apply IH; cbn [scaleSize frame size set_size]; fold s;
      set (s' := Js.double (s * Js.double 0.95)) in *;
      set (m := 2 ^ (-1021)) in *; clearbody m s s';
      set (w := Js.pow shrinkLow n) in *;
      set (w' := Js.pow shrinkHigh n) in *; clearbody w w'; nra.
  - now apply JsFacts.Qltb_ge in E.
Qed.

Lemma growLoop_fits maxSize n : forall st,
  2 ^ (-1021) <= size (frame st) ->
  size (frame st) <= limit ->
  size (frame (growLoop (thresholdProbe limit) maxSize n st)) <= limit.
Proof.
  destruct AutoFitFacts.step_factors
    as (F1 & F2 & F3 & G1 & G2 & GS & GL0 & GL & F4).
  destruct AutoFitFacts.literal_factors as (_ & _ & _ & _ & _ & _ & P & _).
  induction n as [| n IH]; intros st Hlow Hfit;
    set (s := size (frame st)) in *;
    cbn [growLoop overflowed]; cbn [frame size]; fold s.
  - destruct (_ && _)%bool; cbn [frame size]; exact Hfit.
  - destruct (_ && _)%bool; cbn [frame size]; [| exact Hfit].
    destruct (AutoFitFacts.growStep s Hlow) as [L U].
    cbn [scaleSize frame size set_size queries]. fold s.
    set (s' := Js.double (s * Js.double 1.05)) in *.
    assert (Hs' : 2 ^ (-1021) <= s').
    { set (m := 2 ^ (-1021)) in *. clearbody m s s'. nra. }
    destruct (thresholdProbe limit (S (queries st)) s') eqn:E;
      unfold thresholdProbe in E; cbn [frame size set_size].
    + destruct (AutoFitFacts.shrinkStep s' Hs') as [L2 U2].
      cbn [scaleSize frame size set_size].
      set (s2 := Js.double (s' * Js.double 0.95)) in *.
      set (m := 2 ^ (-1021)) in *. clearbody m s s' s2.
      assert (s' * shrinkHigh <= s * growHigh * shrinkHigh) by nra.
      assert (s * (growHigh * shrinkHigh) <= s) by nra.
      nra.
    + apply JsFacts.Qltb_ge in E. apply IH; cbn [frame size set_size];
        [exact Hs' | exact E].
Qed.

End Threshold.

(** X22: against a host whose frame overflows exactly above some size
    [limit], if twenty reductions by 5% from the base size reach the
    limit with the relative margin [2^-47] that the rounding of the
    twenty products can use up, then the size [autoFitText] leaves
    fits: it is at most [limit], and a further read of the probe
    reports no overflow.  The base size is at least [2^-1000] and the
    limit at most [2^1000]. *)
Theorem autoFit_result_fits_consistent_host :
  forall (limit : Q) (textFrame : TextFrame) (params : AdjustmentParams),
    let base := Js.orDouble (baseFontSize params) 12 in
    smallest <= base ->
    limit <= largest ->
    base * Js.pow 0.95 maxIterations * (1 + 2 ^ (-47)) <= limit ->
    let run := autoFitText (thresholdProbe limit) textFrame params in
    size (frame run) <= limit
    /\ thresholdProbe limit (queries run) (size (frame run)) = false.
Proof.
  intros limit textFrame params base Hlow _ Hfit run.
  destruct AutoFitFacts.step_factors as (F1 & _).
  assert (K1 : 2 ^ (-1021) <= smallest * Js.pow shrinkLow maxIterations).
  { apply Qle_bool_iff. vm_compute. reflexivity. }
  assert (K2 : Js.pow shrinkHigh maxIterations
               <= Js.pow 0.95 maxIterations * (1 + 2 ^ (-47))).
  { apply Qle_bool_iff. vm_compute. reflexivity. }
  assert (K3 : 0 < smallest)
    by (apply JsFacts.Qltb_lt; vm_compute; reflexivity).
  pose proof (JsFacts.pow_pos shrinkLow maxIterations F1) as Hp.
  assert (H : size (frame run) <= limit).
  { unfold run, autoFitText. fold base.
    set (st0 := {| frame := set_size base textFrame; queries := 0 |}).
    assert (H0 : 2 ^ (-1021)
                 <= size (frame st0) * Js.pow shrinkLow maxIterations).
    { cbn [st0 frame size set_size].
      set (m := 2 ^ (-1021)) in *.
      set (w := Js.pow shrinkLow maxIterations) in *. clearbody m w. nra. }
    destruct (AutoFitFacts.shrinkLoop_size (thresholdProbe limit)
                maxIterations st0 H0) as [L _].
    apply growLoop_fits.
    - eapply Qle_trans; [exact H0 | exact L].
    - apply shrinkLoop_fits; [exact H0 |].
      cbn [st0 frame size set_size].
      set (w := Js.pow shrinkHigh maxIterations) in *.
      set (k := Js.pow 0.95 maxIterations * (1 + 2 ^ (-47))) in *.
      assert (E : base * Js.pow 0.95 maxIterations * (1 + 2 ^ (-47))
                  == base * k) by (unfold k; ring).
      rewrite E in Hfit. clearbody w k. nra. }
  split; [exact H |]. unfold thresholdProbe. now apply JsFacts.Qltb_ge.
Qed.

Lemma autoFit_result_fits_consistent_host_witness :
  let run := autoFitText (thresholdProbe 10) (plainFrame 30 "Title")
               {| baseFontSize := Some 12; maxFontSize := Some 72 |} in
  size (frame run) <= 10
  /\ thresholdProbe 10 (queries run) (size (frame run)) = false.
Proof.
  apply (autoFit_result_fits_consistent_host 10 (plainFrame 30 "Title")
           {| baseFontSize := Some 12; maxFontSize := Some 72 |}).
  - vm_compute. discriminate.
  - vm_compute. discriminate.
  - vm_compute. discriminate.
Defined.

Section AnyHost.
Variable probe : Probe.

Lemma set_size_twice a b t : set_size a (set_size b t) = set_size a t.
Proof. reflexivity. Qed.

Lemma shrinkLoop_frame n : forall st,
  exists s, frame (shrinkLoop probe n st) = set_size s (frame st).
Proof.
  induction n as [| n IH]; intros st; simpl;
    destruct (probe (queries st) (size (frame st))); simpl;
    try (exists (size (frame st)); symmetry; apply ScalerFacts.set_size_same).
  destruct (IH (scaleSize 0.95
                  {| frame := frame st; queries := S (queries st) |}))
    as (s & Hs).
  exists s. rewrite Hs. reflexivity.
Qed.

Lemma growLoop_frame maxSize n : forall st,
  exists s, frame (growLoop probe maxSize n st) = set_size s (frame st).
Proof.
  induction n as [| n IH]; intros st; simpl.
  - destruct (_ && _)%bool; simpl;
      exists (size (frame st)); symmetry; apply ScalerFacts.set_size_same.
  - destruct (_ && _)%bool; simpl;
      [| exists (size (frame st)); symmetry;
         apply ScalerFacts.set_size_same].
    destruct (probe _ _); simpl.
    + eexists. reflexivity.
    + match goal with
      | |- context [growLoop probe maxSize n ?s] =>
          destruct (IH s) as (s' & Hs)
      end.
      exists s'. rewrite Hs. reflexivity.
Qed.

Lemma shrinkLoop_fitting_frame n st :
  probe (queries st) (size (frame st)) = false ->
  shrinkLoop probe n st
  = {| frame := frame st; queries := S (queries st) |}.
Proof. intros H. destruct n; simpl; rewrite H; reflexivity. Qed.

Lemma growLoop_at_maximum maxSize n st :
  Js.Qltb (size (frame st)) maxSize = false ->
  growLoop probe maxSize n st
  = {| frame := frame st; queries := S (queries st) |}.
Proof.
  intros H. destruct n; simpl; rewrite H, andb_false_r; reflexivity.
Qed.

End AnyHost.

(** X23: whatever the host answers, [autoFitText] changes nothing of
    the frame but its font size: the font, tracking, kerning, colour,
    leading, justification and contents are those of the frame it was
    given. *)
Theorem autoFit_changes_only_the_size :
  forall (probe : Probe) (textFrame : TextFrame) (params : AdjustmentParams),
    exists s,
      frame (autoFitText probe textFrame params) = set_size s textFrame.
Proof.
  intros probe textFrame params. unfold autoFitText.
  set (st0 := {| frame := set_size _ textFrame; queries := 0 |}).
  destruct (growLoop_frame probe (Js.orDouble (maxFontSize params) 72)
              maxIterations (shrinkLoop probe maxIterations st0))
    as (s & Hs).
  destruct (shrinkLoop_frame probe maxIterations st0) as (s' & Hs').
  exists s. rewrite Hs, Hs'. reflexivity.
Qed.

(** X24: when the maximum size is not above the base size and the
    frame does not overflow at the base size on the first read, the
    frame is left at the base size after exactly two reads of the
    probe: nothing is shrunk and nothing can grow. *)
Theorem autoFit_no_room_to_grow :
  forall (probe : Probe) (textFrame : TextFrame) (params : AdjustmentParams),
    let base := Js.orDouble (baseFontSize params) 12 in
    let maxSize := Js.orDouble (maxFontSize params) 72 in
    maxSize <= base ->
    probe 0%nat base = false ->
    size (frame (autoFitText probe textFrame params)) = base
    /\ queries (autoFitText probe textFrame params) = 2%nat.
Proof.
  intros probe textFrame params base maxSize Hmax Hfit.
  assert (E : Js.Qltb base maxSize = false) by now apply JsFacts.Qltb_ge.
  unfold autoFitText. fold base. fold maxSize.
  rewrite shrinkLoop_fitting_frame by exact Hfit.
  rewrite growLoop_at_maximum by exact E.
  split; reflexivity.
Qed.

Lemma autoFit_no_room_to_grow_witness :
  let run := autoFitText (thresholdProbe 40) (plainFrame 30 "Title")
               {| baseFontSize := Some 14; maxFontSize := Some 14 |} in
  size (frame run) = Js.orDouble (Some 14) 12 /\ queries run = 2%nat.
Proof.
  apply (autoFit_no_room_to_grow (thresholdProbe 40) (plainFrame 30 "Title")
           {| baseFontSize := Some 14; maxFontSize := Some 14 |}).
  - vm_compute. discriminate.
  - vm_compute. reflexivity.
Defined.

End AutoFitRules.
